(** * SDN load-balancer controllers: learning, forwarding and congestion state

    A shallow embedding of the two POX controller components of the
    repository, [SimpleLoadBalancer] (simple_load_balancer.py) and
    [LoadBalancerController] (load_balancer_controller.py), together with
    the properties of their learning tables, forwarding commands and
    port-statistics state machines.

    Python dictionaries are finite maps ([gmap]), the congested-link set is
    a [gset], Python floats are IEEE binary64 values ([PrimFloat.float]) and
    Python integers are [Z] or [N].  A handler is a computation in a small
    monad that threads the controller object, collects what the handler
    sends, schedules and logs, and ends by returning or by raising. *)

From Stdlib Require Import Floats ZArith Ascii.
From stdpp Require Import gmap strings pretty.

Local Open Scope Z_scope.

(** ** Python numbers *)

Module Py.

(** [float(z)] for a Python integer: the nearest binary64 value, ties to
    even.  (Python raises OverflowError above the binary64 range; the
    integers converted here are differences of OpenFlow's 64-bit byte
    counters, far inside that range.) *)
Definition float_of_int (z : Z) : float :=
  SF2Prim (binary_normalize prec emax z 0 false).

(** [a / b] on two Python integers (true division): the exact quotient
    rounded once to the nearest binary64 value.  The quotient is computed
    with more than [prec + 2] significant bits and a sticky last bit, which
    rounds as the exact quotient does.  Python raises ZeroDivisionError for
    [b = 0]; the divisors of this program are the literals 8 and 5. *)
Definition truediv (a b : Z) : float :=
  if b =? 0 then nan
  else
    let negative := xorb (a <? 0) (b <? 0) in
    let n := Z.abs a in
    let d := Z.abs b in
    if n =? 0 then (if negative then PrimFloat.neg_zero else PrimFloat.zero)
    else
      let s := 56 + Z.log2 d in
      let q := (n * 2 ^ s) / d in
      let r := (n * 2 ^ s) mod d in
      let m := 2 * q + (if r =? 0 then 0 else 1) in
      SF2Prim (binary_normalize prec emax (if negative then - m else m)
                 (- (s + 1)) false).

(** [x > y] on floats. *)
Definition gt (x y : float) : bool := PrimFloat.ltb y x.

End Py.

(** ** The OpenFlow 1.0 vocabulary the controllers use

    Constants and message constructors of [pox.openflow.libopenflow_01]
    and the Ethernet header of [pox.lib.packet.ethernet], with the values
    that library gives them. *)

Module OpenFlow.

Definition OFPP_MAX : N := 0xff00.
Definition OFPP_FLOOD : N := 0xfffb.
Definition OFPP_CONTROLLER : N := 0xfffd.
Definition OFP_DEFAULT_PRIORITY : N := 0x8000.

Definition ARP_TYPE : N := 0x0806.
Definition LLDP_TYPE : N := 0x88cc.
Definition IPV6_TYPE : N := 0x86dd.

(** A parsed Ethernet frame: [event.parsed]. *)
Record ethernet := {
  parsed : bool;
  src : N;
  dst : N;
  type : N
}.

(** The packet-in message itself: [event.ofp]. *)
Record ofp_packet_in := {
  pi_in_port : N;
  pi_data : list N
}.

Inductive ofp_match :=
| match_all
| from_packet (packet : ethernet) (in_port : N).

Record ofp_action_output := { port : N }.

Record ofp_flow_mod := {
  match_ : ofp_match;
  fm_actions : list ofp_action_output;
  priority : N;
  idle_timeout : N;
  hard_timeout : N
}.

(** [of.ofp_flow_mod()]: wildcard match, no action, default priority, no
    timeouts. *)
Definition new_flow_mod : ofp_flow_mod :=
  {| match_ := match_all; fm_actions := [];
     priority := OFP_DEFAULT_PRIORITY; idle_timeout := 0; hard_timeout := 0 |}.

(** What a packet-out carries: the packet-in message (simple_load_balancer)
    or its payload (load_balancer_controller). *)
Inductive po_data :=
| data_of_packet_in (ofp : ofp_packet_in)
| data_of_bytes (data : list N).

Record ofp_packet_out := {
  po_payload : po_data;
  po_actions : list ofp_action_output;
  po_in_port : N
}.

Inductive ofp_message :=
| flow_mod (m : ofp_flow_mod)
| packet_out (m : ofp_packet_out)
| port_stats_request.

(** One entry of a port-stats reply. *)
Record ofp_port_stats := {
  port_no : N;
  rx_bytes : Z;
  tx_bytes : Z
}.

(** A packet-in event: [dpidToStr(event.connection.dpid)], [event.port],
    [event.parsed] and [event.ofp]. *)
Record packet_in_event := {
  ev_dpid : string;
  ev_port : N;
  ev_parsed : ethernet;
  ev_ofp : ofp_packet_in
}.

End OpenFlow.

Import OpenFlow.

(** ** Handlers as computations *)

Inductive exn := KeyError.

Inductive outcome (A : Type) :=
| Returned (a : A)
| Raise (e : exn).
Arguments Returned {A} a.
Arguments Raise {A} e.

Inductive level := DEBUG | INFO | WARNING.

Section Handler.

(** [S]: the controller object; [L]: its log records. *)
Context {S L : Type}.

Inductive effect :=
| Send (connection : string) (m : ofp_message)
| CallLater (delay : Z)
| Log (lvl : level) (record : L).

(** A handler runs from a controller state to a final state, the effects
    it produced in order, and how it ended.  State changes made before an
    exception stay, as they do on a Python object. *)
Definition handler (A : Type) : Type := S → S * list effect * outcome A.

Definition hret {A} (a : A) : handler A := λ s, (s, [], Returned a).

Definition hbind {A B} (c : handler A) (k : A → handler B) : handler B :=
  λ s, match c s with
       | (s1, out1, Returned a) =>
           match k a s1 with
           | (s2, out2, r) => (s2, out1 ++ out2, r)
           end
       | (s1, out1, Raise e) => (s1, out1, Raise e)
       end.

Definition get : handler S := λ s, (s, [], Returned s).
Definition put (s' : S) : handler unit := λ _, (s', [], Returned tt).
Definition emit (e : effect) : handler unit := λ s, (s, [e], Returned tt).
Definition raise {A} (e : exn) : handler A := λ s, (s, [], Raise e).

Definition send (connection : string) (m : ofp_message) : handler unit :=
  emit (Send connection m).
Definition callLater (delay : Z) : handler unit := emit (CallLater delay).
Definition log (lvl : level) (record : L) : handler unit :=
  emit (Log lvl record).

(** [for x in xs: body x] *)
Fixpoint for_each {A} (xs : list A) (body : A → handler unit) : handler unit :=
  match xs with
  | [] => hret tt
  | x :: xs' => hbind (body x) (λ _, for_each xs' body)
  end.

Definition final_state {A} (r : S * list effect * outcome A) : S := r.1.1.
Definition effects {A} (r : S * list effect * outcome A) : list effect := r.1.2.
Definition result {A} (r : S * list effect * outcome A) : outcome A := r.2.

(** The OpenFlow messages among the effects, in order. *)
Definition sent (out : list effect) : list (string * ofp_message) :=
  omap (λ e, match e with Send c m => Some (c, m) | _ => None end) out.

(** The log records among the effects, in order. *)
Definition logged (out : list effect) : list (level * L) :=
  omap (λ e, match e with Log l r => Some (l, r) | _ => None end) out.

End Handler.

Arguments effect : clear implicits.
Arguments handler : clear implicits.

#[global] Instance handler_ret {S L} : MRet (handler S L) := @hret S L.
#[global] Instance handler_bind {S L} : MBind (handler S L) :=
  λ A B k c, hbind c k.

(** ** simple_load_balancer.py *)

Module SimpleLoadBalancer.

Definition monitoring_interval : Z := 5.
Definition congestion_threshold : float := 0x1.6666666666666p-1%float.

(** One entry of [flow_counters].  A new entry holds the integer 0 as its
    utilization and every later one a float; Python compares the two alike,
    so the field is a float throughout. *)
Record counters := {
  prev_rx : Z;
  prev_tx : Z;
  prev_time : float;
  utilization : float
}.

(** The controller object. *)
Record controller := {
  mac_table : gmap string (gmap N N);
  flow_counters : gmap string counters;
  congested_links : gset string
}.

Inductive log_record :=
| log_connected (dpid : string)
| log_table_miss (dpid : string)
| log_unparsed (dpid : string)
| log_learned (src : N) (dpid : string) (in_port : N)
| log_flood_arp (dpid : string)
| log_forwarding (src dst : N) (dpid : string) (out_port : N)
| log_flooding (src : N) (dpid : string)
| log_installed (dpid : string) (in_port out_port : N)
| log_util (dpid : string) (port : N) (utilization : float)
| log_congestion (dpid : string) (port : N) (utilization : float)
| log_cleared (dpid : string) (port : N).

Abbreviation H := (handler controller log_record).

Definition set_mac_table (mac_table' : gmap string (gmap N N)) : H unit :=
  self ← get;
  put {| mac_table := mac_table';
         flow_counters := flow_counters self;
         congested_links := congested_links self |}.

Definition set_flow_counters (flow_counters' : gmap string counters) : H unit :=
  self ← get;
  put {| mac_table := mac_table self;
         flow_counters := flow_counters';
         congested_links := congested_links self |}.

Definition set_congested_links (congested_links' : gset string) : H unit :=
  self ← get;
  put {| mac_table := mac_table self;
         flow_counters := flow_counters self;
         congested_links := congested_links' |}.

(** [__init__]: empty tables. *)
Definition init : controller :=
  {| mac_table := ∅; flow_counters := ∅; congested_links := ∅ |}.

(** The expression [self.mac_table[dpid]]: KeyError when [dpid] is not a
    key. *)
Definition mac_table_of (dpid : string) : H (gmap N N) :=
  self ← get;
  match mac_table self !! dpid with
  | Some table => mret table
  | None => raise KeyError
  end.

Definition _request_stats_for_connection (connection : string) : H unit :=
  send connection port_stats_request.

(** [connections] stands for [core.openflow._connections.values()] at the
    time of the call; it is read only by the periodic call, which passes no
    connection. *)
Definition _request_stats (connections : list string)
    (connection : option string) : H unit :=
  match connection with
  | None => for_each connections _request_stats_for_connection
  | Some c => _request_stats_for_connection c
  end;;
  callLater monitoring_interval.

Definition _handle_ConnectionUp (connections : list string) (dpid : string) : H unit :=
  log INFO (log_connected dpid);;
  self ← get;
  set_mac_table (<[dpid := ∅]> (mac_table self));;
  let msg :=
    {| match_ := match_ new_flow_mod;
       fm_actions := fm_actions new_flow_mod ++ [{| port := OFPP_CONTROLLER |}];
       priority := 0;
       idle_timeout := idle_timeout new_flow_mod;
       hard_timeout := hard_timeout new_flow_mod |} in
  send dpid (flow_mod msg);;
  log DEBUG (log_table_miss dpid);;
  _request_stats connections (Some dpid).

Definition _install_flow (connection : string) (packet : ethernet)
    (in_port out_port : N) : H unit :=
  let msg :=
    {| match_ := from_packet packet in_port;
       fm_actions := fm_actions new_flow_mod ++ [{| port := out_port |}];
       priority := priority new_flow_mod;
       idle_timeout := 10;
       hard_timeout := 30 |} in
  send connection (flow_mod msg);;
  log DEBUG (log_installed connection in_port out_port).

Definition _send_packet (event : packet_in_event) (out_port : N) : H unit :=
  send (ev_dpid event)
    (packet_out {| po_payload := data_of_packet_in (ev_ofp event);
                   po_actions := [{| port := out_port |}];
                   po_in_port := ev_port event |}).

Definition _flood_packet (event : packet_in_event) : H unit :=
  send (ev_dpid event)
    (packet_out {| po_payload := data_of_packet_in (ev_ofp event);
                   po_actions := [{| port := OFPP_FLOOD |}];
                   po_in_port := ev_port event |}).

Definition _handle_arp (event : packet_in_event) (packet : ethernet)
    (dpid : string) (in_port : N) : H unit :=
  log DEBUG (log_flood_arp dpid);;
  _flood_packet event.

Definition _handle_other_packet (event : packet_in_event) (packet : ethernet)
    (dpid : string) (in_port : N) : H unit :=
  table ← mac_table_of dpid;
  match table !! dst packet with
  | Some out_port =>
      log DEBUG (log_forwarding (src packet) (dst packet) dpid out_port);;
      _install_flow (ev_dpid event) packet in_port out_port;;
      _send_packet event out_port
  | None =>
      log DEBUG (log_flooding (src packet) dpid);;
      _flood_packet event
  end.

Definition _handle_PacketIn (event : packet_in_event) : H unit :=
  let packet := ev_parsed event in
  if negb (parsed packet) then
    log WARNING (log_unparsed (ev_dpid event))
  else
    let dpid := ev_dpid event in
    let in_port := ev_port event in
    table ← mac_table_of dpid;
    match table !! src packet with
    | None =>
        self ← get;
        set_mac_table (<[dpid := <[src packet := in_port]> table]> (mac_table self));;
        log INFO (log_learned (src packet) dpid in_port)
    | Some _ => mret tt
    end;;
    if bool_decide (type packet = LLDP_TYPE) || bool_decide (type packet = IPV6_TYPE)
    then mret tt
    else if bool_decide (type packet = ARP_TYPE)
    then _handle_arp event packet dpid in_port
    else _handle_other_packet event packet dpid in_port.

(** [f"{dpid}-{port}"] *)
Definition port_key (dpid : string) (port : N) : string :=
  dpid +:+ "-" +:+ pretty port.

(** [current_time] is the value [time.time()] returns in this call. *)
Definition _update_link_stats (dpid : string) (port : N)
    (stat : ofp_port_stats) (current_time : float) : H unit :=
  let port_key := port_key dpid port in
  self ← get;
  match flow_counters self !! port_key with
  | None =>
      set_flow_counters
        (<[port_key := {| prev_rx := rx_bytes stat;
                          prev_tx := tx_bytes stat;
                          prev_time := current_time;
                          utilization := 0 |}]> (flow_counters self))
  | Some c =>
      let time_diff := (current_time - prev_time c)%float in
      if Py.gt time_diff 0 then
        let rx_rate := (Py.float_of_int (rx_bytes stat - prev_rx c) / time_diff)%float in
        let tx_rate := (Py.float_of_int (tx_bytes stat - prev_tx c) / time_diff)%float in
        let link_capacity := Py.truediv (100 * 1024 * 1024) 8 in
        let utilization := ((rx_rate + tx_rate) / link_capacity)%float in
        set_flow_counters
          (<[port_key := {| prev_rx := rx_bytes stat;
                            prev_tx := tx_bytes stat;
                            prev_time := current_time;
                            utilization := utilization |}]> (flow_counters self));;
        (if Py.gt utilization 0x1.999999999999ap-5 then log INFO (log_util dpid port utilization)
         else mret tt);;
        self ← get;
        if Py.gt utilization congestion_threshold then
          if bool_decide (port_key ∉ congested_links self) then
            log WARNING (log_congestion dpid port utilization);;
            set_congested_links (congested_links self ∪ {[port_key]})
          else mret tt
        else
          if bool_decide (port_key ∈ congested_links self) then
            log INFO (log_cleared dpid port);;
            set_congested_links (congested_links self ∖ {[port_key]})
          else mret tt
      else mret tt
  end.

(** Each entry of [event.stats] comes with the clock reading of the
    [_update_link_stats] call that processes it. *)
Definition _handle_PortStatsReceived (dpid : string)
    (stats : list (ofp_port_stats * float)) : H unit :=
  for_each stats (λ '(stat, current_time),
    if bool_decide (OFPP_MAX ≤ port_no stat)%N then mret tt
    else _update_link_stats dpid (port_no stat) stat current_time).

(** The events POX delivers to the component, and the timer callback. *)
Inductive event :=
| ConnectionUp (connections : list string) (dpid : string)
| PacketIn (e : packet_in_event)
| PortStatsReceived (dpid : string) (stats : list (ofp_port_stats * float))
| Timer (connections : list string).

Definition handle (ev : event) : H unit :=
  match ev with
  | ConnectionUp connections dpid => _handle_ConnectionUp connections dpid
  | PacketIn e => _handle_PacketIn e
  | PortStatsReceived dpid stats => _handle_PortStatsReceived dpid stats
  | Timer connections => _request_stats connections None
  end.

(** The controller after a sequence of events, one handler at a time. *)
Definition run (evs : list event) (self : controller) : controller :=
  foldl (λ s ev, final_state (handle ev s)) self evs.

End SimpleLoadBalancer.

(** ** load_balancer_controller.py *)

Module LoadBalancerController.

Definition monitoring_interval : Z := 5.
Definition congestion_threshold : float := 0x1.6666666666666p-1%float.

(** One entry of [flow_counters]. *)
Record counters := {
  prev_rx : Z;
  prev_tx : Z;
  current_rx : Z;
  current_tx : Z
}.

(** The controller object.  [switch_stats] only ever receives empty
    dictionaries. *)
Record controller := {
  switch_stats : gmap string (gmap string Z);
  flow_counters : gmap string counters;
  mac_to_port : gmap string (gmap N N)
}.

Inductive log_record :=
| log_connected (dpid : string)
| log_incomplete
| log_installing (src dst : N) (dpid : string) (out_port : N)
| log_flooding (src : N) (dpid : string)
| log_port (dpid : string) (port_no : N) (rx_usage tx_usage : float)
| log_potential_congestion (dpid : string) (port_no : N) (total_usage : float).

Abbreviation H := (handler controller log_record).

Definition set_switch_stats (switch_stats' : gmap string (gmap string Z)) : H unit :=
  self ← get;
  put {| switch_stats := switch_stats';
         flow_counters := flow_counters self;
         mac_to_port := mac_to_port self |}.

Definition set_flow_counters (flow_counters' : gmap string counters) : H unit :=
  self ← get;
  put {| switch_stats := switch_stats self;
         flow_counters := flow_counters';
         mac_to_port := mac_to_port self |}.

Definition set_mac_to_port (mac_to_port' : gmap string (gmap N N)) : H unit :=
  self ← get;
  put {| switch_stats := switch_stats self;
         flow_counters := flow_counters self;
         mac_to_port := mac_to_port' |}.

(** [__init__]: empty tables. *)
Definition init : controller :=
  {| switch_stats := ∅; flow_counters := ∅; mac_to_port := ∅ |}.

(** The expression [self.mac_to_port[dpid]]: KeyError when [dpid] is not a
    key. *)
Definition mac_to_port_of (dpid : string) : H (gmap N N) :=
  self ← get;
  match mac_to_port self !! dpid with
  | Some table => mret table
  | None => raise KeyError
  end.

Definition _request_stats_for_connection (connection : string) : H unit :=
  send connection port_stats_request.

(** [connections] stands for [core.openflow._connections.values()] at the
    time of the call; [event] is the connection of the event, if any. *)
Definition _request_stats (connections : list string)
    (event : option string) : H unit :=
  match event with
  | None => for_each connections _request_stats_for_connection
  | Some c => _request_stats_for_connection c
  end;;
  callLater monitoring_interval.

Definition _handle_ConnectionUp (connections : list string) (dpid : string) : H unit :=
  log INFO (log_connected dpid);;
  self ← get;
  set_switch_stats (<[dpid := ∅]> (switch_stats self));;
  self ← get;
  set_mac_to_port (<[dpid := ∅]> (mac_to_port self));;
  _request_stats connections (Some dpid).

Definition _send_packet (connection : string) (ofp : ofp_packet_in)
    (out_port : N) (packet : ethernet) : H unit :=
  send connection
    (packet_out {| po_payload := data_of_bytes (pi_data ofp);
                   po_actions := [{| port := out_port |}];
                   po_in_port := pi_in_port ofp |}).

Definition _install_flow (connection : string) (ofp : ofp_packet_in)
    (in_port out_port : N) (packet : ethernet) : H unit :=
  let msg :=
    {| match_ := from_packet packet in_port;
       fm_actions := fm_actions new_flow_mod ++ [{| port := out_port |}];
       priority := priority new_flow_mod;
       idle_timeout := 10;
       hard_timeout := 30 |} in
  send connection (flow_mod msg);;
  if bool_decide (out_port ≠ OFPP_FLOOD) then
    _send_packet connection ofp out_port packet
  else mret tt.

Definition _handle_PacketIn (event : packet_in_event) : H unit :=
  let packet := ev_parsed event in
  if negb (parsed packet) then
    log WARNING log_incomplete
  else
    let dpid := ev_dpid event in
    let in_port := ev_port event in
    table ← mac_to_port_of dpid;
    self ← get;
    set_mac_to_port (<[dpid := <[src packet := in_port]> table]> (mac_to_port self));;
    table ← mac_to_port_of dpid;
    out_port ←
      match table !! dst packet with
      | Some out_port =>
          log DEBUG (log_installing (src packet) (dst packet) dpid out_port);;
          mret out_port
      | None =>
          log DEBUG (log_flooding (src packet) dpid);;
          mret OFPP_FLOOD
      end;
    _install_flow (ev_dpid event) (ev_ofp event) in_port out_port packet.

(** [f"{dpid}-{port_no}"] *)
Definition port_key (dpid : string) (port_no : N) : string :=
  dpid +:+ "-" +:+ pretty port_no.

(** The body of the loop over [event.stats], for one entry. *)
Definition port_stats_entry (dpid : string) (stat : ofp_port_stats) : H unit :=
  let port_no := port_no stat in
  if bool_decide (OFPP_MAX ≤ port_no)%N then mret tt
  else
    let rx_bytes := rx_bytes stat in
    let tx_bytes := tx_bytes stat in
    let port_key := port_key dpid port_no in
    self ← get;
    match flow_counters self !! port_key with
    | None =>
        set_flow_counters
          (<[port_key := {| prev_rx := rx_bytes; prev_tx := tx_bytes;
                            current_rx := rx_bytes; current_tx := tx_bytes |}]>
             (flow_counters self))
    | Some c =>
        set_flow_counters
          (<[port_key := {| prev_rx := current_rx c; prev_tx := current_tx c;
                            current_rx := rx_bytes; current_tx := tx_bytes |}]>
             (flow_counters self))
    end;;
    self ← get;
    match flow_counters self !! port_key with
    | None => raise KeyError
    | Some c =>
        let time_interval := monitoring_interval in
        let rx_usage := Py.truediv (rx_bytes - prev_rx c) time_interval in
        let tx_usage := Py.truediv (tx_bytes - prev_tx c) time_interval in
        (if Py.gt rx_usage 1000 || Py.gt tx_usage 1000
         then log INFO (log_port dpid port_no rx_usage tx_usage)
         else mret tt);;
        let total_usage := (rx_usage + tx_usage)%float in
        if Py.gt total_usage 1000000
        then log WARNING (log_potential_congestion dpid port_no total_usage)
        else mret tt
    end.

Definition _handle_PortStatsReceived (dpid : string)
    (stats : list ofp_port_stats) : H unit :=
  for_each stats (port_stats_entry dpid).

Inductive event :=
| ConnectionUp (connections : list string) (dpid : string)
| PacketIn (e : packet_in_event)
| PortStatsReceived (dpid : string) (stats : list ofp_port_stats)
| Timer (connections : list string).

Definition handle (ev : event) : H unit :=
  match ev with
  | ConnectionUp connections dpid => _handle_ConnectionUp connections dpid
  | PacketIn e => _handle_PacketIn e
  | PortStatsReceived dpid stats => _handle_PortStatsReceived dpid stats
  | Timer connections => _request_stats connections None
  end.

Definition run (evs : list event) (self : controller) : controller :=
  foldl (λ s ev, final_state (handle ev s)) self evs.

End LoadBalancerController.

(** ** custom_topology.py

    The two Mininet topologies.  Of [mininet.topo.Topo] the classes use
    [addSwitch] and [addHost], which record a node and return its name, and
    [addLink], which records an edge between two names.  A constructor is
    a computation over the topology under construction that fails (with
    IndexError) when it indexes a list out of range. *)

Module Topology.

Record Topo := {
  switches : list string;
  hosts : list (string * string);
  links : list (string * string)
}.

(** [Topo.__init__]: no node, no link. *)
Definition empty : Topo := {| switches := []; hosts := []; links := [] |}.

Definition builder (A : Type) : Type := Topo → option (A * Topo).

#[global] Instance builder_ret : MRet builder := λ A a t, Some (a, t).
#[global] Instance builder_bind : MBind builder :=
  λ A B k c t, match c t with
               | Some (a, t') => k a t'
               | None => None
               end.

Definition addSwitch (name : string) : builder string :=
  λ t, Some (name, {| switches := switches t ++ [name];
                      hosts := hosts t;
                      links := links t |}).

Definition addHost (name ip : string) : builder string :=
  λ t, Some (name, {| switches := switches t;
                      hosts := hosts t ++ [(name, ip)];
                      links := links t |}).

Definition addLink (node1 node2 : string) : builder unit :=
  λ t, Some ((), {| switches := switches t;
                    hosts := hosts t;
                    links := links t ++ [(node1, node2)] |}).

(** [xs[i]]: IndexError when [i] is out of range. *)
Definition index (xs : list string) (i : nat) : builder string :=
  λ t, match xs !! i with
       | Some x => Some (x, t)
       | None => None
       end.

(** [self.addLink(xs[i], ys[j])] *)
Definition link (xs : list string) (i : nat) (ys : list string) (j : nat) : builder unit :=
  a ← index xs i; b ← index ys j; addLink a b.

(** [ys = []; for i in range: ys.append(body i)] *)
Fixpoint collect (range : list N) (body : N → builder string) : builder (list string) :=
  match range with
  | [] => mret []
  | i :: range' => y ← body i; ys ← collect range' body; mret (y :: ys)
  end.

(** [for i in range: body i] *)
Fixpoint each (range : list nat) (body : nat → builder unit) : builder unit :=
  match range with
  | [] => mret ()
  | i :: range' => body i;; each range' body
  end.

(** [range(1, 7)] and [range(6)]. *)
Definition range_1_7 : list N := [1; 2; 3; 4; 5; 6]%N.
Definition range_6 : list nat := [0; 1; 2; 3; 4; 5]%nat.

(** ['s%s' % i], ['h%s' % i] and ['10.0.0.%s/24' % i]. *)
Definition switch_name (i : N) : string := "s" +:+ pretty i.
Definition host_name (i : N) : string := "h" +:+ pretty i.
Definition host_ip (i : N) : string := "10.0.0." +:+ pretty i +:+ "/24".

Definition LoopFreeTopo : builder unit :=
  switches ← collect range_1_7 (λ i, addSwitch (switch_name i));
  hosts ← collect range_1_7 (λ i, addHost (host_name i) (host_ip i));
  link switches 0 switches 1;;
  link switches 0 switches 2;;
  link switches 1 switches 3;;
  link switches 1 switches 4;;
  link switches 2 switches 5;;
  link hosts 0 switches 0;;
  link hosts 1 switches 1;;
  link hosts 2 switches 2;;
  link hosts 3 switches 3;;
  link hosts 4 switches 4;;
  link hosts 5 switches 5.

Definition ProjectTopo : builder unit :=
  switches ← collect range_1_7 (λ i, addSwitch (switch_name i));
  hosts ← collect range_1_7 (λ i, addHost (host_name i) (host_ip i));
  link switches 0 switches 1;;
  link switches 1 switches 2;;
  link switches 0 switches 3;;
  link switches 3 switches 4;;
  link switches 4 switches 5;;
  link switches 3 switches 5;;
  link switches 1 switches 4;;
  link switches 2 switches 5;;
  each range_6 (λ i, link hosts i switches i).

(** The [topos] registry: a name to the constructor it runs. *)
Definition topos : list (string * builder unit) :=
  [("loopfree", LoopFreeTopo); ("projecttopo", ProjectTopo)].

(** The topology a registered name builds, starting from [Topo.__init__]. *)
Definition build (name : string) : option Topo :=
  match list_find (λ entry, entry.1 = name) topos with
  | Some (_, (_, constructor)) =>
      match constructor empty with
      | Some (_, t) => Some t
      | None => None
      end
  | None => None
  end.

End Topology.

Module SLB := SimpleLoadBalancer.
Module LBC := LoadBalancerController.

(** ** Vocabulary of the properties *)

(** [lookup]: the port a controller has learned for an address on a switch,
    the value of [self.mac_table[dpid][addr]] when both keys exist. *)
Definition slb_lookup (self : SLB.controller) (dpid : string) (addr : N) : option N :=
  SLB.mac_table self !! dpid ≫= λ table, table !! addr.

Definition lbc_lookup (self : LBC.controller) (dpid : string) (addr : N) : option N :=
  LBC.mac_to_port self !! dpid ≫= λ table, table !! addr.

(** The controller after a sequence of packet-in events. *)
Definition slb_observe (evs : list packet_in_event) (self : SLB.controller) : SLB.controller :=
  SLB.run (SLB.PacketIn <$> evs) self.

Definition lbc_observe (evs : list packet_in_event) (self : LBC.controller) : LBC.controller :=
  LBC.run (LBC.PacketIn <$> evs) self.

(** [e'] observes the same address on the same switch as [e]. *)
Definition same_source (e e' : packet_in_event) : Prop :=
  parsed (ev_parsed e') = true ∧ ev_dpid e' = ev_dpid e ∧
  src (ev_parsed e') = src (ev_parsed e).

(** Latest write wins, for a learning step [observe] and its [lookup]:
    on a switch that has a table, after any sequence of packet-in events
    the address of a parsed packet maps to that packet's ingress port
    unless a later packet observed the same address on that switch. *)
Definition latest_write_wins {S : Type}
    (table_of : S → string → option (gmap N N))
    (observe : list packet_in_event → S → S)
    (lookup : S → string → N → option N) : Prop :=
  ∀ (self : S) (before after : list packet_in_event) (e : packet_in_event),
    is_Some (table_of self (ev_dpid e)) →
    parsed (ev_parsed e) = true →
    (∀ e', e' ∈ after → ¬ same_source e e') →
    lookup (observe (before ++ e :: after) self) (ev_dpid e) (src (ev_parsed e))
    = Some (ev_port e).

(** First write wins: an address absent from the switch's table takes the
    ingress port of the first parsed packet that observes it, and keeps it
    whatever is observed afterwards. *)
Definition first_write_wins {S : Type}
    (table_of : S → string → option (gmap N N))
    (observe : list packet_in_event → S → S)
    (lookup : S → string → N → option N) : Prop :=
  ∀ (self : S) (before after : list packet_in_event) (e : packet_in_event)
    (table : gmap N N),
    table_of self (ev_dpid e) = Some table →
    table !! src (ev_parsed e) = None →
    parsed (ev_parsed e) = true →
    (∀ e', e' ∈ before → ¬ same_source e e') →
    lookup (observe (before ++ e :: after) self) (ev_dpid e) (src (ev_parsed e))
    = Some (ev_port e).

(** The flood packet-out and the unicast packet-out of simple_load_balancer,
    and the flow rule both controllers install for a packet. *)
Definition flood_packet_out (e : packet_in_event) : ofp_message :=
  packet_out {| po_payload := data_of_packet_in (ev_ofp e);
                po_actions := [{| port := OFPP_FLOOD |}];
                po_in_port := ev_port e |}.

Definition unicast_packet_out (e : packet_in_event) (out_port : N) : ofp_message :=
  packet_out {| po_payload := data_of_packet_in (ev_ofp e);
                po_actions := [{| port := out_port |}];
                po_in_port := ev_port e |}.

Definition forwarding_rule (e : packet_in_event) (out_port : N) : ofp_message :=
  flow_mod {| match_ := from_packet (ev_parsed e) (ev_port e);
              fm_actions := [{| port := out_port |}];
              priority := OFP_DEFAULT_PRIORITY;
              idle_timeout := 10;
              hard_timeout := 30 |}.

Definition table_miss_rule : ofp_message :=
  flow_mod {| match_ := match_all;
              fm_actions := [{| port := OFPP_CONTROLLER |}];
              priority := 0;
              idle_timeout := 0;
              hard_timeout := 0 |}.

Definition is_flow_mod (m : string * ofp_message) : bool :=
  match m.2 with flow_mod _ => true | _ => false end.

Definition is_packet_out (m : string * ofp_message) : bool :=
  match m.2 with packet_out _ => true | _ => false end.

(** The table simple_load_balancer looks the destination up in: the
    switch's table after the learning step of lines 74-75. *)
Definition slb_learned (table : gmap N N) (e : packet_in_event) : gmap N N :=
  match table !! src (ev_parsed e) with
  | None => <[src (ev_parsed e) := ev_port e]> table
  | Some _ => table
  end.

(** Whether a string contains the separator of the port keys. *)
Fixpoint has_dash (s : string) : bool :=
  match s with
  | EmptyString => false
  | String c s' => bool_decide (c = "-"%char) || has_dash s'
  end.

(** The utilization lines 158-165 of simple_load_balancer compute for a
    sample, from the stored entry [c] of its port. *)
Definition sample_utilization (c : SLB.counters) (stat : ofp_port_stats)
    (current_time : float) : float :=
  let time_diff := (current_time - SLB.prev_time c)%float in
  let rx_rate := (Py.float_of_int (rx_bytes stat - SLB.prev_rx c) / time_diff)%float in
  let tx_rate := (Py.float_of_int (tx_bytes stat - SLB.prev_tx c) / time_diff)%float in
  ((rx_rate + tx_rate) / Py.truediv (100 * 1024 * 1024) 8)%float.

(** The entry a sample leaves in [flow_counters]. *)
Definition slb_entry (stat : ofp_port_stats) (current_time utilization : float) : SLB.counters :=
  {| SLB.prev_rx := rx_bytes stat; SLB.prev_tx := tx_bytes stat;
     SLB.prev_time := current_time; SLB.utilization := utilization |}.

(** Congestion transitions, read off the log: the warning of line 182
    raises, the message of line 187 clears. *)
Inductive transition :=
| Raised (dpid : string) (port : N)
| Cleared (dpid : string) (port : N).

Definition transitions (out : list (effect SLB.log_record)) : list transition :=
  omap (λ e, match e with
             | Log WARNING (SLB.log_congestion dpid port _) => Some (Raised dpid port)
             | Log INFO (SLB.log_cleared dpid port) => Some (Cleared dpid port)
             | _ => None
             end) out.

(** The samples of one port, processed in order. *)
Definition slb_poll (dpid : string) (port : N)
    (samples : list (ofp_port_stats * float)) : SLB.H unit :=
  for_each samples (λ '(stat, current_time),
    SLB._update_link_stats dpid port stat current_time).

(** Every sample of the sequence is evaluated (its port has an entry and
    the clock has advanced since it was stored) and finds the utilization
    above the threshold ([above = true]) or not above it ([above = false]). *)
Fixpoint all_samples (above : bool) (dpid : string) (port : N)
    (samples : list (ofp_port_stats * float)) (self : SLB.controller) : Prop :=
  match samples with
  | [] => True
  | (stat, current_time) :: rest =>
      (∃ c, SLB.flow_counters self !! SLB.port_key dpid port = Some c ∧
            Py.gt (current_time - SLB.prev_time c) 0 = true ∧
            Py.gt (sample_utilization c stat current_time) SLB.congestion_threshold
            = above) ∧
      all_samples above dpid port rest
        (final_state (SLB._update_link_stats dpid port stat current_time self))
  end.

(** The congested set mirrors the stored utilizations. *)
Definition congestion_invariant (self : SLB.controller) : Prop :=
  ∀ key : string,
    (key ∈ SLB.congested_links self → is_Some (SLB.flow_counters self !! key)) ∧
    (∀ c, SLB.flow_counters self !! key = Some c →
          key ∈ SLB.congested_links self
          ↔ Py.gt (SLB.utilization c) SLB.congestion_threshold = true).

(** The rates load_balancer_controller computes for a sample, from the
    entry [c] its port had before the sample (lines 123-131). *)
Definition lbc_rx_usage (c : LBC.counters) (stat : ofp_port_stats) : float :=
  Py.truediv (rx_bytes stat - LBC.current_rx c) LBC.monitoring_interval.

Definition lbc_tx_usage (c : LBC.counters) (stat : ofp_port_stats) : float :=
  Py.truediv (tx_bytes stat - LBC.current_tx c) LBC.monitoring_interval.

(** Sample events. *)
Definition sample_packet (dpid : string) (in_port src dst type : N) : packet_in_event :=
  {| ev_dpid := dpid; ev_port := in_port;
     ev_parsed := {| parsed := true; src := src; dst := dst; type := type |};
     ev_ofp := {| pi_in_port := in_port; pi_data := [] |} |}.

Definition slb_s1 : SLB.controller :=
  SLB.run [SLB.ConnectionUp ["s1"] "s1"] SLB.init.
Definition slb_s1_aa : SLB.controller :=
  slb_observe [sample_packet "s1" 1 0xaa 0xbb 0x0800] slb_s1.
Definition lbc_s1 : LBC.controller :=
  LBC.run [LBC.ConnectionUp ["s1"] "s1"] LBC.init.
Definition lbc_s1_aa : LBC.controller :=
  lbc_observe [sample_packet "s1" 1 0xaa 0xbb 0x0800] lbc_s1.
Definition arp_bb_to_aa := sample_packet "s1" 2 0xbb 0xaa ARP_TYPE.
Definition ip_bb_to_aa := sample_packet "s1" 2 0xbb 0xaa 0x0800.
Definition ip_aa_to_bb := sample_packet "s1" 1 0xaa 0xbb 0x0800.
Definition ip_aa_moved := sample_packet "s1" 2 0xaa 0xbb 0x0800.

Definition port3 (rx tx : Z) : ofp_port_stats :=
  {| port_no := 3; rx_bytes := rx; tx_bytes := tx |}.
Definition slb_polled : SLB.controller :=
  SLB.run [SLB.ConnectionUp ["s1"] "s1";
           SLB.PortStatsReceived "s1" [(port3 0 0, 1000%float)]] SLB.init.
Definition lbc_polled : LBC.controller :=
  LBC.run [LBC.ConnectionUp ["s1"] "s1";
           LBC.PortStatsReceived "s1" [port3 0 0]] LBC.init.

(** Two samples at 10,000,000 B/s, then two at 1,000,000 B/s, five seconds
    apart, after the baseline of [slb_polled]. *)
Definition busy_samples : list (ofp_port_stats * float) :=
  [(port3 50000000 0, 1005%float); (port3 100000000 0, 1010%float)].
Definition quiet_samples : list (ofp_port_stats * float) :=
  [(port3 105000000 0, 1015%float); (port3 110000000 0, 1020%float)].
Definition slb_busy : SLB.controller :=
  final_state (slb_poll "s1" 3 busy_samples slb_polled).

(** *** Graphs of links

    A topology's links form an undirected multigraph on node names; a link
    is named by its position in the list. *)

(** Link [i] joins [u] and [v]. *)
Definition joins (links : list (string * string)) (i : nat) (u v : string) : Prop :=
  links !! i = Some (u, v) ∨ links !! i = Some (v, u).

(** [trail links u path v]: following the links [path] one after the
    other leads from [u] to [v]. *)
Inductive trail (links : list (string * string)) : string → list nat → string → Prop :=
| trail_nil u : trail links u [] u
| trail_cons u v w i path :
    joins links i u v → trail links v path w → trail links u (i :: path) w.

(** A loop among the links that satisfy [allowed]: a closed trail that uses
    at least one link and no link twice. *)
Definition has_loop_among (allowed : nat → Prop) (links : list (string * string)) : Prop :=
  ∃ u path, path ≠ [] ∧ NoDup path ∧ Forall allowed path ∧ trail links u path u.

Definition has_loop (links : list (string * string)) : Prop :=
  has_loop_among (λ _, True) links.

(** Any two of the nodes are joined by a trail. *)
Definition connected (links : list (string * string)) (nodes : list string) : Prop :=
  ∀ u v, u ∈ nodes → v ∈ nodes → ∃ path, trail links u path v.

Definition incident (l : string * string) (v : string) : bool :=
  bool_decide (l.1 = v) || bool_decide (l.2 = v).

(** The links that touch node [v]. *)
Definition attachments (links : list (string * string)) (v : string) : list (string * string) :=
  filter (λ l, incident l v = true) links.

(** Where following [path] from [u] leads, if every link of it continues
    from the node reached so far. *)
Fixpoint walk (links : list (string * string)) (u : string) (path : list nat) : option string :=
  match path with
  | [] => Some u
  | i :: path' =>
      match links !! i with
      | Some (a, b) =>
          if bool_decide (a = u) then walk links b path'
          else if bool_decide (b = u) then walk links a path'
          else None
      | None => None
      end
  end.

(** Paths from [root], grown link by link, [fuel] rounds over all links. *)
Definition extend (found : list (string * list nat)) (i : nat) (l : string * string) :
    list (string * list nat) :=
  match list_find (λ e, e.1 = l.1) found, list_find (λ e, e.1 = l.2) found with
  | Some (_, (_, p)), None => found ++ [(l.2, p ++ [i])]
  | None, Some (_, (_, p)) => found ++ [(l.1, p ++ [i])]
  | _, _ => found
  end.

Fixpoint explore (links : list (string * string)) (fuel : nat)
    (found : list (string * list nat)) : list (string * list nat) :=
  match fuel with
  | O => found
  | S fuel' =>
      explore links fuel'
        (foldl (λ acc il, extend acc il.1 il.2) found (imap pair links))
  end.

(** Every node has, among [paths], a path that [walk]s to it from [root]. *)
Definition all_reached (links : list (string * string)) (root : string)
    (nodes : list string) (paths : list (string * list nat)) : bool :=
  forallb (λ n, existsb (λ e, bool_decide (walk links root e.2 = Some n)) paths) nodes.

(** [v] is a leaf hanging on link [i] once the links [removed] are gone:
    link [i] is still there, joins [v] to another node, and no other
    remaining link touches [v]. *)
Definition is_leaf_link (links : list (string * string)) (removed : list nat)
    (v : string) (i : nat) : bool :=
  match links !! i with
  | Some (a, b) =>
      bool_decide (a ≠ b) && incident (a, b) v && bool_decide (i ∉ removed)
      && forallb (λ jl, bool_decide (jl.1 = i) || bool_decide (jl.1 ∈ removed)
                        || negb (incident jl.2 v))
           (imap pair links)
  | None => false
  end.

(** Removing leaves one after the other, as [order] says, uses up all the
    links. *)
Fixpoint peel (links : list (string * string)) (removed : list nat)
    (order : list (string * nat)) : bool :=
  match order with
  | [] => forallb (λ j, bool_decide (j ∈ removed)) (seq 0 (length links))
  | (v, i) :: order' => is_leaf_link links removed v i && peel links (i :: removed) order'
  end.

(** The nodes of a topology. *)
Definition nodes (t : Topology.Topo) : list string :=
  Topology.switches t ++ (Topology.hosts t).*1.

(** The order in which the links of the loop-free topology peel off: the
    hosts, then the switches from the outside in, each with the position of
    the one link left at it. *)
Definition loopfree_leaves : list (string * nat) :=
  [("h1", 5); ("h2", 6); ("h3", 7); ("h4", 8); ("h5", 9); ("h6", 10);
   ("s4", 2); ("s5", 3); ("s6", 4); ("s2", 0); ("s3", 1)]%nat.

(** *** Traces of the controllers *)

Definition is_call_later {L : Type} (e : effect L) : bool :=
  match e with CallLater _ => true | _ => false end.

Definition is_log {L : Type} (e : effect L) : bool :=
  match e with Log _ _ => true | _ => false end.

(** Everything the handlers emit over a sequence of events, in order. *)
Fixpoint slb_trace (evs : list SLB.event) (self : SLB.controller) :
    list (effect SLB.log_record) :=
  match evs with
  | [] => []
  | ev :: evs' =>
      effects (SLB.handle ev self) ++ slb_trace evs' (final_state (SLB.handle ev self))
  end.

Fixpoint lbc_trace (evs : list LBC.event) (self : LBC.controller) :
    list (effect LBC.log_record) :=
  match evs with
  | [] => []
  | ev :: evs' =>
      effects (LBC.handle ev self) ++ lbc_trace evs' (final_state (LBC.handle ev self))
  end.



(** The entries of a port-stats reply that are not skipped. *)
Definition slb_ingested (stats : list (ofp_port_stats * float)) :
    list (ofp_port_stats * float) :=
  filter (λ entry, (port_no entry.1 < OFPP_MAX)%N) stats.

Definition lbc_ingested (stats : list ofp_port_stats) : list ofp_port_stats :=
  filter (λ stat, (port_no stat < OFPP_MAX)%N) stats.

(** An effect of a handler that talks to one switch only: a log record or
    a message sent to [dpid], and no timer. *)
Definition only_to {L : Type} (dpid : string) (e : effect L) : Prop :=
  match e with
  | Send connection _ => connection = dpid
  | Log _ _ => True
  | CallLater _ => False
  end.

(** *** Samples of a port *)

(** The samples load_balancer_controller receives for port [port] of switch
    [dpid] over a sequence of events, in the order it processes them. *)
Definition lbc_samples (dpid : string) (port : N) (evs : list LBC.event) :
    list ofp_port_stats :=
  evs ≫= λ ev,
    match ev with
    | LBC.PortStatsReceived d stats =>
        if decide (d = dpid) then filter (λ stat, port_no stat = port) stats else []
    | _ => []
    end.

(** The entry lines 114-126 of load_balancer_controller leave for a sample,
    from what the port had before ([None]: no entry). *)
Definition lbc_shift (c : option LBC.counters) (stat : ofp_port_stats) :
    option LBC.counters :=
  Some match c with
       | None =>
           {| LBC.prev_rx := rx_bytes stat; LBC.prev_tx := tx_bytes stat;
              LBC.current_rx := rx_bytes stat; LBC.current_tx := tx_bytes stat |}
       | Some c =>
           {| LBC.prev_rx := LBC.current_rx c; LBC.prev_tx := LBC.current_tx c;
              LBC.current_rx := rx_bytes stat; LBC.current_tx := tx_bytes stat |}
       end.

(** The entry that holds the last two samples of a sequence: the last one
    as current counters and the one before it as previous counters; after
    a single sample, that sample as both; no entry without a sample. *)
Definition lbc_window (samples : list ofp_port_stats) : option LBC.counters :=
  match reverse samples with
  | [] => None
  | [a] =>
      Some {| LBC.prev_rx := rx_bytes a; LBC.prev_tx := tx_bytes a;
              LBC.current_rx := rx_bytes a; LBC.current_tx := tx_bytes a |}
  | b :: a :: _ =>
      Some {| LBC.prev_rx := rx_bytes a; LBC.prev_tx := tx_bytes a;
              LBC.current_rx := rx_bytes b; LBC.current_tx := tx_bytes b |}
  end.

(** ** Evaluating handlers *)

Ltac hsimpl :=
  cbv beta iota zeta delta
    [hbind hret get put emit raise send callLater log];
  cbn [final_state effects result fst snd app negb orb andb
       SLB.mac_table SLB.flow_counters SLB.congested_links
       LBC.mac_to_port LBC.flow_counters LBC.switch_stats].

Ltac hunfold :=
  unfold mbind, mret, handler_bind, handler_ret,
     SLB.set_mac_table, SLB.set_flow_counters, SLB.set_congested_links,
     SLB.mac_table_of, SLB._request_stats_for_connection,
     SLB._install_flow, SLB._send_packet, SLB._flood_packet, SLB._handle_arp,
     SLB._handle_other_packet, SLB._handle_PacketIn, SLB._request_stats,
     SLB._handle_ConnectionUp, SLB._update_link_stats,
     LBC._request_stats, LBC._handle_ConnectionUp,
     LBC.set_switch_stats, LBC.set_flow_counters, LBC.set_mac_to_port,
     LBC.mac_to_port_of, LBC._request_stats_for_connection,
     LBC._install_flow, LBC._send_packet, LBC._handle_PacketIn,
     LBC.port_stats_entry.

Ltac hrun := repeat (progress (hunfold; hsimpl)).

Section HandlerFacts.
Context {S L : Type}.
Implicit Types (s : S).

(** What holds before a loop and is kept by every iteration, however the
    iteration ends, holds after the loop. *)
Lemma for_each_invariant {A} (P : S → Prop) (xs : list A)
    (body : A → handler S L unit) :
  (∀ x s, P s → P (final_state (body x s))) →
  ∀ s, P s → P (final_state (for_each xs body s)).
Proof.
  intros Hbody. induction xs as [|x xs IH]; intros s Hs; [exact Hs|].
  cbn [for_each]. unfold hbind.
  specialize (Hbody x s Hs).
  destruct (body x s) as [[s1 out1] [[]|e]]; cbn [final_state fst] in *.
  - specialize (IH s1 Hbody).
    destruct (for_each xs body s1) as [[s2 out2] r]. exact IH.
  - exact Hbody.
Qed.

End HandlerFacts.

Lemma gset_add_present (X : gset string) (k : string) : k ∈ X → X ∪ {[k]} = X.
Proof.
  intros Hk. rewrite (comm_L (∪)).
  by apply subseteq_union_1_L, singleton_subseteq_l.
Qed.

Lemma gset_remove_absent (X : gset string) (k : string) : k ∉ X → X ∖ {[k]} = X.
Proof. intros Hk. by apply difference_disjoint_L, disjoint_singleton_r. Qed.

(** ** Port keys

    The key [f"{dpid}-{port}"] determines the switch and the port: the
    decimal numeral of the port holds no dash, so the last dash of the key
    is the separator. *)

Section PortKeys.

Lemma append_nil (b : string) : "" +:+ b = b.
Proof. reflexivity. Qed.

Lemma append_cons (c : ascii) (a b : string) :
  String c a +:+ b = String c (a +:+ b).
Proof. reflexivity. Qed.

Lemma has_dash_app (a b : string) :
  has_dash (a +:+ b) = has_dash a || has_dash b.
Proof.
  induction a as [|c a IH]; [done|].
  rewrite append_cons. cbn [has_dash]. by rewrite IH, orb_assoc.
Qed.

Lemma pretty_N_go_no_dash (x : N) (s : string) :
  has_dash s = false → has_dash (pretty_N_go x s) = false.
Proof.
  revert s. induction (N.lt_wf_0 x) as [x _ IH]; intros s Hs.
  destruct (decide (x = 0%N)) as [->|Hx]; [by rewrite pretty_N_go_0|].
  rewrite pretty_N_go_step by lia. apply IH.
  - apply N.div_lt; lia.
  - cbn [has_dash]. rewrite Hs, orb_false_r. apply bool_decide_eq_false_2.
    unfold pretty_N_char. by repeat case_match.
Qed.

Lemma pretty_N_no_dash (x : N) : has_dash (pretty x) = false.
Proof.
  unfold pretty, pretty_N. case_decide; [done|]. by apply pretty_N_go_no_dash.
Qed.

Lemma dash_separates (a b u v : string) :
  has_dash u = false → has_dash v = false →
  a +:+ "-" +:+ u = b +:+ "-" +:+ v → a = b ∧ u = v.
Proof.
  intros Hu Hv. revert b. induction a as [|c a IH]; intros [|c' b] Heq;
    rewrite ?append_cons, ?append_nil in Heq.
  - by injection Heq.
  - injection Heq as _ Heq. subst u. rewrite has_dash_app in Hu.
    cbn [has_dash] in Hu. rewrite orb_true_r in Hu. discriminate Hu.
  - injection Heq as _ Heq. subst v. rewrite has_dash_app in Hv.
    cbn [has_dash] in Hv. rewrite orb_true_r in Hv. discriminate Hv.
  - injection Heq as -> Heq. by destruct (IH _ Heq) as [-> ->].
Qed.

Lemma slb_port_key_inj (d1 d2 : string) (p1 p2 : N) :
  SLB.port_key d1 p1 = SLB.port_key d2 p2 → d1 = d2 ∧ p1 = p2.
Proof.
  unfold SLB.port_key. intros Heq.
  apply dash_separates in Heq as [-> Hp]; try apply pretty_N_no_dash.
  split; [done|]. by apply (inj pretty).
Qed.

Lemma lbc_port_key_inj (d1 d2 : string) (p1 p2 : N) :
  LBC.port_key d1 p1 = LBC.port_key d2 p2 → d1 = d2 ∧ p1 = p2.
Proof. apply slb_port_key_inj. Qed.

End PortKeys.

(** ** Comparing floats *)

Section FloatOrder.

Lemma SFcompare_antisym (x y : spec_float) :
  SFcompare y x = option_map CompOpp (SFcompare x y).
Proof.
  destruct x as [sx|sx| |sx mx e1], y as [sy|sy| |sy my e2]; cbn;
    try reflexivity;
    try (destruct sx; reflexivity); try (destruct sy; reflexivity);
    try (destruct sx, sy; reflexivity).
  assert (Pos.compare_cont Eq my mx = CompOpp (Pos.compare_cont Eq mx my)) as ->
    by (rewrite Pos.compare_cont_antisym; reflexivity).
  rewrite (Z.compare_antisym e1 e2).
  destruct sx, sy; cbn; try reflexivity;
    destruct (e1 ?= e2)%Z; cbn; reflexivity.
Qed.

Lemma is_nan_false_compare (x y : float) :
  is_nan x = false → is_nan y = false →
  ∃ c, SFcompare (Prim2SF x) (Prim2SF y) = Some c.
Proof.
  unfold is_nan. intros Hx Hy.
  apply negb_false_iff in Hx. apply negb_false_iff in Hy.
  rewrite FloatAxioms.eqb_spec in Hx, Hy. unfold SFeqb in Hx, Hy.
  destruct (Prim2SF x) as [sx|sx| |sx mx e1], (Prim2SF y) as [sy|sy| |sy my e2];
    cbn in *; try discriminate; eauto.
Qed.

(** For two numbers, [x > y] is false exactly when [x <= y]. *)
Lemma not_gt_iff_le (x y : float) :
  is_nan x = false → is_nan y = false →
  Py.gt x y = false ↔ PrimFloat.leb x y = true.
Proof.
  intros Hx Hy. unfold Py.gt. rewrite FloatAxioms.ltb_spec, FloatAxioms.leb_spec.
  unfold SFltb, SFleb. rewrite (SFcompare_antisym (Prim2SF x) (Prim2SF y)).
  destruct (is_nan_false_compare x y Hx Hy) as [c ->]. by destruct c.
Qed.

End FloatOrder.

(** ** simple_load_balancer: packet-in *)

Section SLBPacketIn.
Import SimpleLoadBalancer.
Implicit Types (self : controller) (e : packet_in_event) (table : gmap N N).

Lemma slb_packet_in_unparsed self e :
  parsed (ev_parsed e) = false →
  _handle_PacketIn e self
  = (self, [Log WARNING (log_unparsed (ev_dpid e))], Returned ()).
Proof. intros Hp. hrun. rewrite Hp. reflexivity. Qed.

Lemma slb_packet_in_no_table self e :
  parsed (ev_parsed e) = true →
  mac_table self !! ev_dpid e = None →
  _handle_PacketIn e self = (self, [], Raise KeyError).
Proof. intros Hp Ht. hrun. rewrite Hp. hrun. rewrite Ht. reflexivity. Qed.

(** A packet-in changes nothing but the learning table. *)
Lemma slb_packet_in_state self e :
  final_state (_handle_PacketIn e self)
  = {| mac_table :=
         if parsed (ev_parsed e) then
           match mac_table self !! ev_dpid e with
           | Some table => <[ev_dpid e := slb_learned table e]> (mac_table self)
           | None => mac_table self
           end
         else mac_table self;
       flow_counters := flow_counters self;
       congested_links := congested_links self |}.
Proof.
  destruct (parsed (ev_parsed e)) eqn:Hp.
  2: { rewrite slb_packet_in_unparsed by done. by destruct self. }
  destruct (mac_table self !! ev_dpid e) as [table|] eqn:Ht.
  2: { rewrite slb_packet_in_no_table by done. by destruct self. }
  hrun. rewrite Hp. hrun. rewrite Ht. hrun.
  unfold slb_learned.
  destruct (table !! src (ev_parsed e)) eqn:Hs; hrun.
  - rewrite (insert_id _ _ _ Ht).
    repeat case_bool_decide; hrun; rewrite ?Ht; hrun;
      try destruct (table !! dst (ev_parsed e)); by destruct self.
  - repeat case_bool_decide; hrun; rewrite ?lookup_insert_eq; hrun;
      try destruct (<[src (ev_parsed e):=ev_port e]> table !! dst (ev_parsed e));
      reflexivity.
Qed.

(** The learning table after a packet-in. *)
Lemma slb_packet_in_mac_table self e :
  mac_table (final_state (_handle_PacketIn e self))
  = if parsed (ev_parsed e) then
      match mac_table self !! ev_dpid e with
      | Some table => <[ev_dpid e := slb_learned table e]> (mac_table self)
      | None => mac_table self
      end
    else mac_table self.
Proof. by rewrite slb_packet_in_state. Qed.

End SLBPacketIn.

Section SLBForwarding.
Import SimpleLoadBalancer.
Implicit Types (self : controller) (e : packet_in_event) (table : gmap N N).

(** What a packet-in from a switch with a table sends, by packet type and
    destination. *)
Lemma slb_packet_in_sent self e table :
  parsed (ev_parsed e) = true →
  mac_table self !! ev_dpid e = Some table →
  result (_handle_PacketIn e self) = Returned () ∧
  sent (effects (_handle_PacketIn e self))
  = if bool_decide (type (ev_parsed e) = LLDP_TYPE)
       || bool_decide (type (ev_parsed e) = IPV6_TYPE) then []
    else if bool_decide (type (ev_parsed e) = ARP_TYPE)
    then [(ev_dpid e, flood_packet_out e)]
    else match slb_learned table e !! dst (ev_parsed e) with
         | Some out_port => [(ev_dpid e, forwarding_rule e out_port);
                             (ev_dpid e, unicast_packet_out e out_port)]
         | None => [(ev_dpid e, flood_packet_out e)]
         end.
Proof.
  intros Hp Ht. hrun. rewrite Hp. hrun. rewrite Ht. hrun.
  unfold slb_learned.
  destruct (table !! src (ev_parsed e)) eqn:Hs; hrun;
    repeat case_bool_decide; hrun;
    rewrite ?Ht, ?lookup_insert_eq; hrun; try (split; reflexivity).
  - destruct (table !! dst (ev_parsed e)); split; reflexivity.
  - destruct (<[src (ev_parsed e):=ev_port e]> table !! dst (ev_parsed e));
      split; reflexivity.
Qed.

End SLBForwarding.

(** C3.  In simple_load_balancer, a parsed packet-in from a switch that has
    a learning table is flooded when it is ARP, whatever the table holds
    (one packet-out with the flood action and nothing else), and sends no
    OpenFlow message at all when it is LLDP or IPv6. *)
Theorem arp_floods_lldp_ipv6_dropped
    (self : SLB.controller) (e : packet_in_event) (table : gmap N N) :
  parsed (ev_parsed e) = true →
  SLB.mac_table self !! ev_dpid e = Some table →
  (type (ev_parsed e) = ARP_TYPE →
     result (SLB._handle_PacketIn e self) = Returned () ∧
     sent (effects (SLB._handle_PacketIn e self)) = [(ev_dpid e, flood_packet_out e)]) ∧
  (type (ev_parsed e) = LLDP_TYPE ∨ type (ev_parsed e) = IPV6_TYPE →
     result (SLB._handle_PacketIn e self) = Returned () ∧
     sent (effects (SLB._handle_PacketIn e self)) = []).
Proof.
  intros Hp Ht.
  destruct (slb_packet_in_sent self e table Hp Ht) as [Hr Hs].
  rewrite Hr, Hs. split.
  - intros Ha. rewrite Ha. done.
  - intros [Hl|Hl]; rewrite Hl; done.
Qed.


(** C3, at an ARP packet whose destination is in the table. *)
Lemma arp_floods_witness :
  slb_lookup slb_s1_aa "s1" 0xaa = Some 1%N ∧
  sent (effects (SLB._handle_PacketIn arp_bb_to_aa slb_s1_aa))
  = [("s1", flood_packet_out arp_bb_to_aa)].
Proof.
  split; [vm_compute; reflexivity|].
  refine (proj2 (proj1 (arp_floods_lldp_ipv6_dropped slb_s1_aa arp_bb_to_aa
                   {[ 0xaa%N := 1%N ]} _ _) _)).
  - reflexivity.
  - vm_compute. reflexivity.
  - reflexivity.
Defined.

(** ** load_balancer_controller: packet-in *)

Section LBCPacketIn.
Import LoadBalancerController.
Implicit Types (self : controller) (e : packet_in_event) (table : gmap N N).

Lemma lbc_packet_in_unparsed self e :
  parsed (ev_parsed e) = false →
  _handle_PacketIn e self = (self, [Log WARNING log_incomplete], Returned ()).
Proof. intros Hp. hrun. rewrite Hp. reflexivity. Qed.

Lemma lbc_packet_in_no_table self e :
  parsed (ev_parsed e) = true →
  mac_to_port self !! ev_dpid e = None →
  _handle_PacketIn e self = (self, [], Raise KeyError).
Proof. intros Hp Ht. hrun. rewrite Hp. hrun. rewrite Ht. reflexivity. Qed.

(** What a packet-in from a switch with a table sends. *)
Lemma lbc_packet_in_sent self e table :
  parsed (ev_parsed e) = true →
  mac_to_port self !! ev_dpid e = Some table →
  result (_handle_PacketIn e self) = Returned () ∧
  sent (effects (_handle_PacketIn e self))
  = match <[src (ev_parsed e) := ev_port e]> table !! dst (ev_parsed e) with
    | Some out_port =>
        (ev_dpid e, forwarding_rule e out_port) ::
        (if bool_decide (out_port ≠ OFPP_FLOOD)
         then [(ev_dpid e,
                packet_out {| po_payload := data_of_bytes (pi_data (ev_ofp e));
                              po_actions := [{| port := out_port |}];
                              po_in_port := pi_in_port (ev_ofp e) |})]
         else [])
    | None => [(ev_dpid e, forwarding_rule e OFPP_FLOOD)]
    end.
Proof.
  intros Hp Ht. hrun. rewrite Hp. hrun. rewrite Ht. hrun.
  rewrite lookup_insert_eq. hrun.
  destruct (<[src (ev_parsed e):=ev_port e]> table !! dst (ev_parsed e)) as [out|];
    hrun; [case_bool_decide|]; split; reflexivity.
Qed.

(** A packet-in changes nothing but the learning table. *)
Lemma lbc_packet_in_state self e :
  final_state (_handle_PacketIn e self)
  = {| switch_stats := switch_stats self;
       flow_counters := flow_counters self;
       mac_to_port :=
         if parsed (ev_parsed e) then
           match mac_to_port self !! ev_dpid e with
           | Some table =>
               <[ev_dpid e := <[src (ev_parsed e) := ev_port e]> table]> (mac_to_port self)
           | None => mac_to_port self
           end
         else mac_to_port self |}.
Proof.
  destruct (parsed (ev_parsed e)) eqn:Hp.
  2: { rewrite lbc_packet_in_unparsed by done. by destruct self. }
  destruct (mac_to_port self !! ev_dpid e) as [table|] eqn:Ht.
  2: { rewrite lbc_packet_in_no_table by done. by destruct self. }
  hrun. rewrite Hp. hrun. rewrite Ht. hrun. rewrite lookup_insert_eq. hrun.
  destruct (<[src (ev_parsed e):=ev_port e]> table !! dst (ev_parsed e)) as [out|];
    hrun; [case_bool_decide|]; reflexivity.
Qed.

(** The learning table after a packet-in. *)
Lemma lbc_packet_in_mac_to_port self e :
  mac_to_port (final_state (_handle_PacketIn e self))
  = if parsed (ev_parsed e) then
      match mac_to_port self !! ev_dpid e with
      | Some table =>
          <[ev_dpid e := <[src (ev_parsed e) := ev_port e]> table]> (mac_to_port self)
      | None => mac_to_port self
      end
    else mac_to_port self.
Proof. by rewrite lbc_packet_in_state. Qed.

End LBCPacketIn.

(** ** Learning over sequences of packets *)

Section Learning.
Implicit Types (e : packet_in_event) (dpid : string) (addr : N).

Lemma slb_observe_cons e evs self :
  slb_observe (e :: evs) self
  = slb_observe evs (final_state (SLB._handle_PacketIn e self)).
Proof. reflexivity. Qed.

Lemma lbc_observe_cons e evs self :
  lbc_observe (e :: evs) self
  = lbc_observe evs (final_state (LBC._handle_PacketIn e self)).
Proof. reflexivity. Qed.

(** *** load_balancer_controller: every observation overwrites *)

Lemma lbc_step_table e self dpid :
  is_Some (LBC.mac_to_port self !! dpid) →
  is_Some (LBC.mac_to_port (final_state (LBC._handle_PacketIn e self)) !! dpid).
Proof.
  intros Hd. rewrite lbc_packet_in_mac_to_port.
  destruct (parsed (ev_parsed e)); [|done].
  destruct (LBC.mac_to_port self !! ev_dpid e) eqn:Ht; [|done].
  destruct (decide (ev_dpid e = dpid)) as [->|Hne].
  - rewrite lookup_insert_eq. eauto.
  - by rewrite lookup_insert_ne.
Qed.

Lemma lbc_step_lookup_same e self :
  is_Some (LBC.mac_to_port self !! ev_dpid e) →
  parsed (ev_parsed e) = true →
  lbc_lookup (final_state (LBC._handle_PacketIn e self))
    (ev_dpid e) (src (ev_parsed e)) = Some (ev_port e).
Proof.
  intros [table Ht] Hp. unfold lbc_lookup.
  rewrite lbc_packet_in_mac_to_port, Hp, Ht, lookup_insert_eq. cbn.
  apply lookup_insert_eq.
Qed.

Lemma lbc_step_lookup_other e e' self :
  ¬ same_source e e' →
  lbc_lookup (final_state (LBC._handle_PacketIn e' self))
    (ev_dpid e) (src (ev_parsed e))
  = lbc_lookup self (ev_dpid e) (src (ev_parsed e)).
Proof.
  intros Hdiff. unfold lbc_lookup. rewrite lbc_packet_in_mac_to_port.
  destruct (parsed (ev_parsed e')) eqn:Hp; [|done].
  destruct (LBC.mac_to_port self !! ev_dpid e') as [table|] eqn:Ht; [|done].
  destruct (decide (ev_dpid e' = ev_dpid e)) as [Hd|Hd].
  - rewrite <- Hd, lookup_insert_eq, Ht. cbn.
    apply lookup_insert_ne. intros Hs. apply Hdiff. by split.
  - by rewrite lookup_insert_ne.
Qed.

Lemma lbc_observe_table evs self dpid :
  is_Some (LBC.mac_to_port self !! dpid) →
  is_Some (LBC.mac_to_port (lbc_observe evs self) !! dpid).
Proof.
  revert self. induction evs as [|e evs IH]; intros self Hd; [done|].
  rewrite lbc_observe_cons. by apply IH, lbc_step_table.
Qed.

Lemma lbc_observe_lookup_others e evs self :
  (∀ e', e' ∈ evs → ¬ same_source e e') →
  lbc_lookup (lbc_observe evs self) (ev_dpid e) (src (ev_parsed e))
  = lbc_lookup self (ev_dpid e) (src (ev_parsed e)).
Proof.
  revert self. induction evs as [|e' evs IH]; intros self Hall; [done|].
  rewrite lbc_observe_cons, IH.
  - apply lbc_step_lookup_other, Hall. left.
  - intros e'' He''. apply Hall. by right.
Qed.

Lemma lbc_latest_write_wins :
  latest_write_wins (λ self dpid, LBC.mac_to_port self !! dpid)
    lbc_observe lbc_lookup.
Proof.
  intros self before after e Hd Hp Hafter.
  unfold lbc_observe, LBC.run. rewrite fmap_app, foldl_app, fmap_cons.
  cbn [foldl]. fold (LBC.run (LBC.PacketIn <$> before) self).
  fold (lbc_observe before self).
  change (LBC.handle (LBC.PacketIn e)) with (LBC._handle_PacketIn e).
  set (s1 := final_state _).
  fold (LBC.run (LBC.PacketIn <$> after) s1). fold (lbc_observe after s1).
  rewrite lbc_observe_lookup_others by done.
  apply lbc_step_lookup_same; [|done].
  by apply lbc_observe_table.
Qed.

(** *** simple_load_balancer: only the first observation is recorded *)

Lemma slb_step_table e self dpid :
  is_Some (SLB.mac_table self !! dpid) →
  is_Some (SLB.mac_table (final_state (SLB._handle_PacketIn e self)) !! dpid).
Proof.
  intros Hd. rewrite slb_packet_in_mac_table.
  destruct (parsed (ev_parsed e)); [|done].
  destruct (SLB.mac_table self !! ev_dpid e) eqn:Ht; [|done].
  destruct (decide (ev_dpid e = dpid)) as [->|Hne].
  - rewrite lookup_insert_eq. eauto.
  - by rewrite lookup_insert_ne.
Qed.

(** A learned address keeps its port through any packet-in. *)
Lemma slb_step_lookup_kept e self dpid addr p :
  slb_lookup self dpid addr = Some p →
  slb_lookup (final_state (SLB._handle_PacketIn e self)) dpid addr = Some p.
Proof.
  unfold slb_lookup. intros Hl. rewrite slb_packet_in_mac_table.
  destruct (parsed (ev_parsed e)); [|done].
  destruct (SLB.mac_table self !! ev_dpid e) as [table|] eqn:Ht; [|done].
  destruct (decide (ev_dpid e = dpid)) as [Hd|Hd].
  - subst dpid. rewrite Ht in Hl. cbn in Hl.
    rewrite lookup_insert_eq. cbn. unfold slb_learned.
    destruct (table !! src (ev_parsed e)) eqn:Hs; [done|].
    rewrite lookup_insert_ne; [done|]. congruence.
  - by rewrite lookup_insert_ne.
Qed.

Lemma slb_step_lookup_first e self table :
  SLB.mac_table self !! ev_dpid e = Some table →
  table !! src (ev_parsed e) = None →
  parsed (ev_parsed e) = true →
  slb_lookup (final_state (SLB._handle_PacketIn e self))
    (ev_dpid e) (src (ev_parsed e)) = Some (ev_port e).
Proof.
  intros Ht Hs Hp. unfold slb_lookup.
  rewrite slb_packet_in_mac_table, Hp, Ht, lookup_insert_eq. cbn.
  unfold slb_learned. rewrite Hs. apply lookup_insert_eq.
Qed.

(** A packet that does not observe the address leaves its entry alone. *)
Lemma slb_step_entry_other e e' self :
  ¬ same_source e e' →
  slb_lookup (final_state (SLB._handle_PacketIn e' self))
    (ev_dpid e) (src (ev_parsed e))
  = slb_lookup self (ev_dpid e) (src (ev_parsed e)).
Proof.
  intros Hdiff. unfold slb_lookup. rewrite slb_packet_in_mac_table.
  destruct (parsed (ev_parsed e')) eqn:Hp; [|done].
  destruct (SLB.mac_table self !! ev_dpid e') as [table|] eqn:Ht; [|done].
  destruct (decide (ev_dpid e' = ev_dpid e)) as [Hd|Hd].
  - rewrite <- Hd, lookup_insert_eq, Ht. cbn. unfold slb_learned.
    destruct (table !! src (ev_parsed e')); [done|].
    apply lookup_insert_ne. intros Hs. apply Hdiff. by split.
  - by rewrite lookup_insert_ne.
Qed.

Lemma slb_observe_lookup_kept evs self dpid addr p :
  slb_lookup self dpid addr = Some p →
  slb_lookup (slb_observe evs self) dpid addr = Some p.
Proof.
  revert self. induction evs as [|e evs IH]; intros self Hl; [done|].
  rewrite slb_observe_cons. by apply IH, slb_step_lookup_kept.
Qed.

Lemma slb_first_write_wins :
  first_write_wins (λ self dpid, SLB.mac_table self !! dpid)
    slb_observe slb_lookup.
Proof.
  intros self before. revert self.
  induction before as [|e' before IH]; intros self after e table Ht Hs Hp Hbefore.
  - cbn [app]. rewrite slb_observe_cons.
    apply slb_observe_lookup_kept. by eapply slb_step_lookup_first.
  - cbn [app]. rewrite slb_observe_cons.
    assert (¬ same_source e e') as Hdiff by (apply Hbefore; left).
    pose proof (slb_step_entry_other e e' self Hdiff) as Hsame.
    destruct (slb_step_table e' self (ev_dpid e)) as [table' Ht']; [eauto|].
    apply (IH _ after e table'); try done.
    + unfold slb_lookup in Hsame. rewrite Ht', Ht in Hsame. cbn in Hsame.
      congruence.
    + intros e'' He''. apply Hbefore. by right.
Qed.

End Learning.

(** ** simple_load_balancer: one port-statistics sample *)

Section SLBSample.
Import SimpleLoadBalancer.
Implicit Types (self : controller) (stat : ofp_port_stats) (c : counters).

(** A port without an entry: the sample becomes its baseline. *)
Lemma slb_update_first self dpid port stat current_time :
  flow_counters self !! port_key dpid port = None →
  _update_link_stats dpid port stat current_time self
  = ({| mac_table := mac_table self;
        flow_counters :=
          <[port_key dpid port := slb_entry stat current_time 0]> (flow_counters self);
        congested_links := congested_links self |}, [], Returned ()).
Proof. intros Hk. hrun. rewrite Hk. reflexivity. Qed.

(** No time has passed on the controller's clock: nothing happens. *)
Lemma slb_update_stale self dpid port stat current_time c :
  flow_counters self !! port_key dpid port = Some c →
  Py.gt (current_time - prev_time c) 0 = false →
  _update_link_stats dpid port stat current_time self = (self, [], Returned ()).
Proof. intros Hk Hdt. hrun. rewrite Hk. hrun. rewrite Hdt. reflexivity. Qed.

(** Time has passed: the entry is replaced and congestion is evaluated. *)
Lemma slb_update_fresh self dpid port stat current_time c :
  flow_counters self !! port_key dpid port = Some c →
  Py.gt (current_time - prev_time c) 0 = true →
  let key := port_key dpid port in
  let u := sample_utilization c stat current_time in
  _update_link_stats dpid port stat current_time self
  = ({| mac_table := mac_table self;
        flow_counters := <[key := slb_entry stat current_time u]> (flow_counters self);
        congested_links :=
          if Py.gt u congestion_threshold
          then congested_links self ∪ {[key]}
          else congested_links self ∖ {[key]} |},
     (if Py.gt u 0x1.999999999999ap-5 then [Log INFO (log_util dpid port u)] else [])
     ++ (if Py.gt u congestion_threshold
         then if bool_decide (key ∉ congested_links self)
              then [Log WARNING (log_congestion dpid port u)] else []
         else if bool_decide (key ∈ congested_links self)
              then [Log INFO (log_cleared dpid port)] else []),
     Returned ()).
Proof.
  intros Hk Hdt key u. hrun. rewrite Hk. hrun. rewrite Hdt. hrun.
  fold key. change (_ / Py.truediv _ _)%float with u.
  destruct (Py.gt u 0x1.999999999999ap-5); hrun;
    destruct (Py.gt u congestion_threshold); hrun;
    destruct (bool_decide _) eqn:Hin; hrun; try reflexivity;
    apply bool_decide_eq_false in Hin;
    first [ apply dec_stable in Hin; rewrite gset_add_present by done
          | rewrite gset_remove_absent by done ];
    reflexivity.
Qed.

(** A sample of one port leaves the entries of all other ports alone. *)
Lemma slb_update_other_pair self dpid port dpid' port' stat current_time :
  (dpid', port') ≠ (dpid, port) →
  flow_counters
    (final_state (_update_link_stats dpid' port' stat current_time self))
  !! port_key dpid port
  = flow_counters self !! port_key dpid port.
Proof.
  intros Hne.
  assert (port_key dpid' port' ≠ port_key dpid port) as Hkey.
  { intros [-> ->]%slb_port_key_inj. by apply Hne. }
  destruct (flow_counters self !! port_key dpid' port') as [c|] eqn:Hk.
  2: { rewrite slb_update_first by done. cbn [final_state fst flow_counters].
       by rewrite lookup_insert_ne. }
  destruct (Py.gt (current_time - prev_time c) 0) eqn:Hdt.
  - rewrite (slb_update_fresh _ _ _ _ _ c) by done.
    cbn [final_state fst flow_counters]. by rewrite lookup_insert_ne.
  - by rewrite (slb_update_stale _ _ _ _ _ c).
Qed.

End SLBSample.

(** ** load_balancer_controller: one port-statistics sample *)

Section LBCSample.
Import LoadBalancerController.
Implicit Types (self : controller) (stat : ofp_port_stats) (c : counters).

Lemma lbc_entry_reserved self dpid stat :
  (OFPP_MAX ≤ port_no stat)%N →
  port_stats_entry dpid stat self = (self, [], Returned ()).
Proof. intros Hp. hrun. by rewrite bool_decide_eq_true_2. Qed.

(** A port without an entry: the sample becomes its baseline, both as
    previous and as current counters, and the rates come out as zero. *)
Lemma lbc_entry_first self dpid stat :
  (port_no stat < OFPP_MAX)%N →
  flow_counters self !! port_key dpid (port_no stat) = None →
  port_stats_entry dpid stat self
  = ({| switch_stats := switch_stats self;
        flow_counters :=
          <[port_key dpid (port_no stat) :=
              {| prev_rx := rx_bytes stat; prev_tx := tx_bytes stat;
                 current_rx := rx_bytes stat; current_tx := tx_bytes stat |}]>
            (flow_counters self);
        mac_to_port := mac_to_port self |}, [], Returned ()).
Proof.
  intros Hp Hk. hrun. rewrite bool_decide_eq_false_2 by lia.
  hrun. rewrite Hk. hrun. rewrite lookup_insert_eq. hrun.
  cbn [prev_rx prev_tx]. rewrite !Z.sub_diag. reflexivity.
Qed.

(** A port with an entry: the counters shift and the rates are the byte
    deltas over the monitoring interval. *)
Lemma lbc_entry_next self dpid stat c :
  (port_no stat < OFPP_MAX)%N →
  flow_counters self !! port_key dpid (port_no stat) = Some c →
  let rx_usage := lbc_rx_usage c stat in
  let tx_usage := lbc_tx_usage c stat in
  port_stats_entry dpid stat self
  = ({| switch_stats := switch_stats self;
        flow_counters :=
          <[port_key dpid (port_no stat) :=
              {| prev_rx := current_rx c; prev_tx := current_tx c;
                 current_rx := rx_bytes stat; current_tx := tx_bytes stat |}]>
            (flow_counters self);
        mac_to_port := mac_to_port self |},
     (if Py.gt rx_usage 1000 || Py.gt tx_usage 1000
      then [Log INFO (log_port dpid (port_no stat) rx_usage tx_usage)] else [])
     ++ (if Py.gt (rx_usage + tx_usage) 1000000
         then [Log WARNING
                 (log_potential_congestion dpid (port_no stat) (rx_usage + tx_usage))]
         else []),
     Returned ()).
Proof.
  intros Hp Hk rx_usage tx_usage. hrun. rewrite bool_decide_eq_false_2 by lia.
  hrun. rewrite Hk. hrun. rewrite lookup_insert_eq. hrun.
  cbn [prev_rx prev_tx]. fold (lbc_rx_usage c stat) (lbc_tx_usage c stat).
  fold rx_usage tx_usage.
  destruct (Py.gt rx_usage 1000 || Py.gt tx_usage 1000); hrun;
    destruct (Py.gt (rx_usage + tx_usage) 1000000); reflexivity.
Qed.

(** A sample of one port leaves the entries of all other ports alone. *)
Lemma lbc_entry_other_pair self dpid port dpid' stat :
  (dpid', port_no stat) ≠ (dpid, port) →
  flow_counters (final_state (port_stats_entry dpid' stat self))
  !! port_key dpid port
  = flow_counters self !! port_key dpid port.
Proof.
  intros Hne.
  assert (port_key dpid' (port_no stat) ≠ port_key dpid port) as Hkey.
  { intros [-> Hp]%lbc_port_key_inj. apply Hne. by rewrite Hp. }
  destruct (decide (OFPP_MAX ≤ port_no stat)%N) as [Hp|Hp].
  { by rewrite lbc_entry_reserved. }
  destruct (flow_counters self !! port_key dpid' (port_no stat)) as [c|] eqn:Hk.
  - rewrite (lbc_entry_next _ _ _ c) by (done || lia).
    cbn [final_state fst flow_counters]. by rewrite lookup_insert_ne.
  - rewrite lbc_entry_first by (done || lia).
    cbn [final_state fst flow_counters]. by rewrite lookup_insert_ne.
Qed.

End LBCSample.

(** ** Congestion transitions of simple_load_balancer *)

Section Congestion.
Import SimpleLoadBalancer.
Implicit Types (self : controller) (stat : ofp_port_stats) (c : counters).

Lemma transitions_app out1 out2 :
  transitions (out1 ++ out2) = transitions out1 ++ transitions out2.
Proof. apply omap_app. Qed.

(** The transitions of one sample, and the congested set it leaves. *)
Lemma slb_update_transitions self dpid port stat current_time :
  let key := port_key dpid port in
  let r := _update_link_stats dpid port stat current_time self in
  match flow_counters self !! key with
  | None => transitions (effects r) = [] ∧ congested_links (final_state r) = congested_links self
  | Some c =>
      if Py.gt (current_time - prev_time c) 0 then
        if Py.gt (sample_utilization c stat current_time) congestion_threshold then
          transitions (effects r)
          = (if bool_decide (key ∈ congested_links self) then [] else [Raised dpid port]) ∧
          congested_links (final_state r) = congested_links self ∪ {[key]}
        else
          transitions (effects r)
          = (if bool_decide (key ∈ congested_links self) then [Cleared dpid port] else []) ∧
          congested_links (final_state r) = congested_links self ∖ {[key]}
      else transitions (effects r) = [] ∧ congested_links (final_state r) = congested_links self
  end.
Proof.
  intros key r. subst r.
  destruct (flow_counters self !! key) as [c|] eqn:Hk.
  2: { rewrite slb_update_first by done. done. }
  destruct (Py.gt (current_time - prev_time c) 0) eqn:Hdt.
  2: { rewrite (slb_update_stale _ _ _ _ _ c) by done. done. }
  rewrite (slb_update_fresh _ _ _ _ _ c) by done. fold key.
  cbn [effects final_state fst snd congested_links]. rewrite transitions_app.
  assert (∀ u, transitions
            (if Py.gt u 0x1.999999999999ap-5
             then [Log INFO (log_util dpid port u)] else []) = []) as ->
    by (intros u; by destruct (Py.gt u _)).
  cbn [app].
  destruct (Py.gt (sample_utilization c stat current_time) congestion_threshold).
  - split; [|done].
    destruct (decide (key ∈ congested_links self)) as [Hin|Hin].
    + rewrite bool_decide_eq_false_2, bool_decide_eq_true_2 by eauto. done.
    + rewrite bool_decide_eq_true_2, bool_decide_eq_false_2 by done. done.
  - split; [|done]. by case_bool_decide.
Qed.

End Congestion.

Section CongestionRuns.
Import SimpleLoadBalancer.
Implicit Types (self : controller) (stat : ofp_port_stats) (c : counters)
  (samples : list (ofp_port_stats * float)).

Lemma slb_update_returns self dpid port stat current_time :
  result (_update_link_stats dpid port stat current_time self) = Returned ().
Proof.
  destruct (flow_counters self !! port_key dpid port) as [c|] eqn:Hk.
  2: { by rewrite slb_update_first. }
  destruct (Py.gt (current_time - prev_time c) 0) eqn:Hdt.
  - by rewrite (slb_update_fresh _ _ _ _ _ c).
  - by rewrite (slb_update_stale _ _ _ _ _ c).
Qed.

Lemma slb_poll_cons self dpid port stat current_time samples :
  let r := _update_link_stats dpid port stat current_time self in
  slb_poll dpid port ((stat, current_time) :: samples) self
  = (final_state (slb_poll dpid port samples (final_state r)),
     effects r ++ effects (slb_poll dpid port samples (final_state r)),
     result (slb_poll dpid port samples (final_state r))).
Proof.
  intros r. unfold slb_poll. cbn [for_each]. unfold hbind. fold r.
  pose proof (slb_update_returns self dpid port stat current_time) as Hr.
  fold r in Hr. destruct r as [[s1 out1] o]. cbn in Hr. subst o.
  cbn [final_state effects result fst snd].
  by destruct (for_each samples _ s1) as [[s2 out2] o2].
Qed.

(** A run of samples above the threshold raises at its first sample if the
    port was not congested, and never again. *)
Lemma slb_poll_above self dpid port samples :
  all_samples true dpid port samples self →
  let key := port_key dpid port in
  let r := slb_poll dpid port samples self in
  transitions (effects r)
  = (if bool_decide (key ∈ congested_links self) then []
     else match samples with [] => [] | _ => [Raised dpid port] end) ∧
  (samples ≠ [] → key ∈ congested_links (final_state r)).
Proof.
  revert self. induction samples as [|[stat t] rest IH]; intros self Hall key r.
  - subst r. cbn. split; [by case_bool_decide|done].
  - destruct Hall as [(c & Hk & Hdt & Hu) Hrest]. subst r.
    rewrite slb_poll_cons. cbn [effects final_state fst snd].
    pose proof (slb_update_transitions self dpid port stat t) as Hstep.
    cbn zeta in Hstep. rewrite Hk, Hdt, Hu in Hstep. destruct Hstep as [Ht Hc].
    destruct (IH _ Hrest) as [IHt IHc]. fold key in Ht, Hc, IHt, IHc.
    assert (key ∈ congested_links
              (final_state (_update_link_stats dpid port stat t self))) as Hin.
    { rewrite Hc. apply elem_of_union. right. by apply elem_of_singleton. }
    rewrite (bool_decide_eq_true_2 _ Hin) in IHt.
    rewrite transitions_app, Ht, IHt, app_nil_r. split; [reflexivity|].
    intros _. destruct rest as [|s' rest]; [exact Hin|]. by apply IHc.
Qed.

(** A run of samples not above the threshold clears at its first sample
    if the port was congested, and never again. *)
Lemma slb_poll_below self dpid port samples :
  all_samples false dpid port samples self →
  let key := port_key dpid port in
  let r := slb_poll dpid port samples self in
  transitions (effects r)
  = (if bool_decide (key ∈ congested_links self)
     then match samples with [] => [] | _ => [Cleared dpid port] end
     else []) ∧
  (samples ≠ [] → key ∉ congested_links (final_state r)).
Proof.
  revert self. induction samples as [|[stat t] rest IH]; intros self Hall key r.
  - subst r. cbn. split; [by case_bool_decide|done].
  - destruct Hall as [(c & Hk & Hdt & Hu) Hrest]. subst r.
    rewrite slb_poll_cons. cbn [effects final_state fst snd].
    pose proof (slb_update_transitions self dpid port stat t) as Hstep.
    cbn zeta in Hstep. rewrite Hk, Hdt, Hu in Hstep. destruct Hstep as [Ht Hc].
    destruct (IH _ Hrest) as [IHt IHc]. fold key in Ht, Hc, IHt, IHc.
    assert (key ∉ congested_links
              (final_state (_update_link_stats dpid port stat t self))) as Hout.
    { rewrite Hc. intros [_ Hn]%elem_of_difference. apply Hn.
      by apply elem_of_singleton. }
    rewrite (bool_decide_eq_false_2 _ Hout) in IHt.
    rewrite transitions_app, Ht, IHt, app_nil_r. split; [reflexivity|].
    intros _. destruct rest as [|s' rest]; [exact Hout|]. by apply IHc.
Qed.

End CongestionRuns.

(** C5.  Congestion transitions of simple_load_balancer are edge-triggered
    with a strict threshold.  For one sample of a port: a Raised transition
    is emitted only when the port has an entry, the clock has advanced, the
    computed utilization is strictly above the threshold (a utilization
    equal to the threshold does not raise) and the port's key is not in the
    congested set, and it puts the key in the set; a Cleared transition is
    emitted only when the utilization is not above the threshold (at or
    below it, for a utilization that is a number) and the key is in the
    set, and it removes the key; a sample that leaves the key's membership
    as it was emits no transition.  Hence a run of samples that are all
    above the threshold raises exactly once from an uncongested port, and a
    run of samples none of which is above it clears exactly once from a
    congested port. *)
Theorem congestion_edge_triggered
    (self : SLB.controller) (dpid : string) (port : N)
    (stat : ofp_port_stats) (current_time : float) :
  let key := SLB.port_key dpid port in
  let r := SLB._update_link_stats dpid port stat current_time self in
  (∀ d p, Raised d p ∈ transitions (effects r) →
     d = dpid ∧ p = port ∧
     (key ∉ SLB.congested_links self) ∧ (key ∈ SLB.congested_links (final_state r)) ∧
     ∃ c, SLB.flow_counters self !! key = Some c ∧
          Py.gt (current_time - SLB.prev_time c) 0 = true ∧
          Py.gt (sample_utilization c stat current_time) SLB.congestion_threshold = true ∧
          sample_utilization c stat current_time ≠ SLB.congestion_threshold) ∧
  (∀ d p, Cleared d p ∈ transitions (effects r) →
     d = dpid ∧ p = port ∧
     (key ∈ SLB.congested_links self) ∧ (key ∉ SLB.congested_links (final_state r)) ∧
     ∃ c, SLB.flow_counters self !! key = Some c ∧
          Py.gt (current_time - SLB.prev_time c) 0 = true ∧
          Py.gt (sample_utilization c stat current_time) SLB.congestion_threshold = false ∧
          (is_nan (sample_utilization c stat current_time) = false →
           PrimFloat.leb (sample_utilization c stat current_time)
             SLB.congestion_threshold = true)) ∧
  ((key ∈ SLB.congested_links self ↔ key ∈ SLB.congested_links (final_state r)) →
     transitions (effects r) = []) ∧
  (∀ samples, samples ≠ [] →
     key ∉ SLB.congested_links self →
     all_samples true dpid port samples self →
     transitions (effects (slb_poll dpid port samples self)) = [Raised dpid port]) ∧
  (∀ samples, samples ≠ [] →
     key ∈ SLB.congested_links self →
     all_samples false dpid port samples self →
     transitions (effects (slb_poll dpid port samples self)) = [Cleared dpid port]).
Proof.
  intros key r.
  pose proof (slb_update_transitions self dpid port stat current_time) as Hstep.
  cbn zeta in Hstep. fold key r in Hstep.
  assert (∀ key' (X : gset string), key' ∈ X ∪ {[key']}) as Hadd.
  { intros. apply elem_of_union. right. by apply elem_of_singleton. }
  assert (∀ key' (X : gset string), key' ∉ X ∖ {[key']}) as Hdel.
  { intros ?? [_ Hn]%elem_of_difference. apply Hn. by apply elem_of_singleton. }
  split; [|split; [|split; [|split]]].
  - intros d p Hin.
    destruct (SLB.flow_counters self !! key) as [c|] eqn:Hk.
    2: { destruct Hstep as [Ht _]. rewrite Ht in Hin. by apply elem_of_nil in Hin. }
    destruct (Py.gt (current_time - SLB.prev_time c) 0) eqn:Hdt.
    2: { destruct Hstep as [Ht _]. rewrite Ht in Hin. by apply elem_of_nil in Hin. }
    destruct (Py.gt (sample_utilization c stat current_time) SLB.congestion_threshold)
      eqn:Hu; destruct Hstep as [Ht Hc]; rewrite Ht in Hin;
      case_bool_decide as Hmem; try by apply elem_of_nil in Hin.
    + apply list_elem_of_singleton in Hin. injection Hin as -> ->.
      rewrite Hc. repeat split; try done.
      exists c. repeat split; try done.
      intros Heq. rewrite Heq in Hu. discriminate Hu.
    + apply list_elem_of_singleton in Hin. discriminate Hin.
  - intros d p Hin.
    destruct (SLB.flow_counters self !! key) as [c|] eqn:Hk.
    2: { destruct Hstep as [Ht _]. rewrite Ht in Hin. by apply elem_of_nil in Hin. }
    destruct (Py.gt (current_time - SLB.prev_time c) 0) eqn:Hdt.
    2: { destruct Hstep as [Ht _]. rewrite Ht in Hin. by apply elem_of_nil in Hin. }
    destruct (Py.gt (sample_utilization c stat current_time) SLB.congestion_threshold)
      eqn:Hu; destruct Hstep as [Ht Hc]; rewrite Ht in Hin;
      case_bool_decide as Hmem; try by apply elem_of_nil in Hin.
    + apply list_elem_of_singleton in Hin. discriminate Hin.
    + apply list_elem_of_singleton in Hin. injection Hin as -> ->.
      rewrite Hc. repeat split; try done.
      exists c. repeat split; try done.
      intros Hnan. by apply not_gt_iff_le.
  - intros Hsame.
    destruct (SLB.flow_counters self !! key) as [c|] eqn:Hk; [|by destruct Hstep].
    destruct (Py.gt (current_time - SLB.prev_time c) 0) eqn:Hdt; [|by destruct Hstep].
    destruct (Py.gt (sample_utilization c stat current_time) SLB.congestion_threshold)
      eqn:Hu; destruct Hstep as [Ht Hc]; rewrite Ht; rewrite Hc in Hsame;
      case_bool_decide as Hmem; try reflexivity.
    + exfalso. apply Hmem, Hsame, Hadd.
    + exfalso. by apply (Hdel key (SLB.congested_links self)), Hsame.
  - intros samples Hne Hout Hall.
    destruct (slb_poll_above self dpid port samples Hall) as [Ht _].
    rewrite Ht, bool_decide_eq_false_2 by done. by destruct samples.
  - intros samples Hne Hin Hall.
    destruct (slb_poll_below self dpid port samples Hall) as [Ht _].
    rewrite Ht, bool_decide_eq_true_2 by done. by destruct samples.
Qed.

(** C5, at the port of [slb_polled]: two busy samples raise once, two
    quiet samples after them clear once. *)
Lemma congestion_edge_triggered_witness :
  transitions (effects (slb_poll "s1" 3 busy_samples slb_polled)) = [Raised "s1" 3] ∧
  transitions (effects (slb_poll "s1" 3 quiet_samples slb_busy)) = [Cleared "s1" 3].
Proof.
  split.
  - refine (proj1 (proj2 (proj2 (proj2
      (congestion_edge_triggered slb_polled "s1" 3 (port3 0 0) 0)))) busy_samples _ _ _).
    + discriminate.
    + apply (bool_decide_unpack _). vm_compute. exact I.
    + repeat split; eexists; (split; [vm_compute; reflexivity|]);
        split; vm_compute; reflexivity.
  - refine (proj2 (proj2 (proj2 (proj2
      (congestion_edge_triggered slb_busy "s1" 3 (port3 0 0) 0)))) quiet_samples _ _ _).
    + discriminate.
    + apply (bool_decide_unpack _). vm_compute. exact I.
    + repeat split; eexists; (split; [vm_compute; reflexivity|]);
        split; vm_compute; reflexivity.
Defined.

(** C6.  In both controllers the first sample of a (switch, port) pair,
    the one that finds no entry under the pair's key, is stored as the
    pair's baseline and nothing else happens: simple_load_balancer stores
    the counters and the clock reading with utilization 0, leaves the
    congested set as it was and emits nothing; load_balancer_controller
    stores the counters (its rates come out as zero) and emits nothing.
    The key belongs to the pair alone: samples of other pairs neither
    create nor change its entry. *)
Theorem first_sample_is_baseline (dpid : string) (port : N) :
  (∀ (self : SLB.controller) (stat : ofp_port_stats) (current_time : float),
     SLB.flow_counters self !! SLB.port_key dpid port = None →
     let r := SLB._update_link_stats dpid port stat current_time self in
     SLB.flow_counters (final_state r)
     = <[SLB.port_key dpid port := slb_entry stat current_time 0]>
         (SLB.flow_counters self) ∧
     SLB.congested_links (final_state r) = SLB.congested_links self ∧
     effects r = [] ∧ result r = Returned ()) ∧
  (∀ (self : SLB.controller) dpid' port' stat current_time,
     (dpid', port') ≠ (dpid, port) →
     SLB.flow_counters
       (final_state (SLB._update_link_stats dpid' port' stat current_time self))
     !! SLB.port_key dpid port
     = SLB.flow_counters self !! SLB.port_key dpid port) ∧
  (∀ (self : LBC.controller) (stat : ofp_port_stats),
     port_no stat = port →
     (port < OFPP_MAX)%N →
     LBC.flow_counters self !! LBC.port_key dpid port = None →
     let r := LBC.port_stats_entry dpid stat self in
     LBC.flow_counters (final_state r)
     = <[LBC.port_key dpid port :=
           {| LBC.prev_rx := rx_bytes stat; LBC.prev_tx := tx_bytes stat;
              LBC.current_rx := rx_bytes stat; LBC.current_tx := tx_bytes stat |}]>
         (LBC.flow_counters self) ∧
     effects r = [] ∧ result r = Returned ()) ∧
  (∀ (self : LBC.controller) dpid' (stat : ofp_port_stats),
     (dpid', port_no stat) ≠ (dpid, port) →
     LBC.flow_counters (final_state (LBC.port_stats_entry dpid' stat self))
     !! LBC.port_key dpid port
     = LBC.flow_counters self !! LBC.port_key dpid port).
Proof.
  split; [|split; [|split]].
  - intros self stat current_time Hk r. subst r.
    rewrite slb_update_first by done. done.
  - intros self dpid' port' stat current_time. apply slb_update_other_pair.
  - intros self stat <- Hp Hk r. subst r.
    rewrite lbc_entry_first by done. done.
  - intros self dpid' stat. apply lbc_entry_other_pair.
Qed.

(** C6, at the first sample of port 3 on a freshly connected switch. *)
Lemma first_sample_is_baseline_witness :
  effects (SLB._update_link_stats "s1" 3 (port3 7 9) 1000 slb_s1) = [] ∧
  effects (LBC.port_stats_entry "s1" (port3 7 9) lbc_s1) = [].
Proof.
  split.
  - refine (proj1 (proj2 (proj2
      (proj1 (first_sample_is_baseline "s1" 3) slb_s1 (port3 7 9) 1000%float _)))).
    vm_compute. reflexivity.
  - refine (proj1 (proj2
      (proj1 (proj2 (proj2 (first_sample_is_baseline "s1" 3)))
         lbc_s1 (port3 7 9) _ _ _))).
    + reflexivity.
    + vm_compute. reflexivity.
    + vm_compute. reflexivity.
Defined.

(** C7 as stated fails on load_balancer_controller: its handler reads no
    clock, so a sample for a port that has an entry always replaces the
    stored counters and yields a rate of delta / 5, also when no time at
    all has passed since the previous sample.  Here the entry of port 3 is
    (0, 0); the next sample of 10,000,000 received bytes is stored and
    reported as 2,000,000 B/s. *)
Lemma lbc_sample_ignores_elapsed_time :
  let r := LBC.port_stats_entry "s1" (port3 10000000 0) lbc_polled in
  LBC.flow_counters lbc_polled !! "s1-3"
  = Some {| LBC.prev_rx := 0; LBC.prev_tx := 0;
            LBC.current_rx := 0; LBC.current_tx := 0 |} ∧
  LBC.flow_counters (final_state r) !! "s1-3"
  = Some {| LBC.prev_rx := 0; LBC.prev_tx := 0;
            LBC.current_rx := 10000000; LBC.current_tx := 0 |} ∧
  logged (effects r)
  = [(INFO, LBC.log_port "s1" 3 2000000 0);
     (WARNING, LBC.log_potential_congestion "s1" 3 2000000)].
Proof. vm_compute. done. Qed.

(** C7, amended.  In simple_load_balancer a sample for a port that has an
    entry is evaluated only when the clock reading exceeds the stored one:
    otherwise the handler returns with the controller unchanged and
    nothing emitted; when it does, the stored entry becomes the sample's
    counters and clock reading with the utilization computed from the byte
    deltas divided by the elapsed clock time.  In load_balancer_controller
    every sample for a port below OFPP_MAX that has an entry shifts the
    stored counters, and its rates are the byte deltas divided by the fixed
    monitoring interval. *)
Theorem sample_rates
    (dpid : string) (stat : ofp_port_stats) :
  (∀ (self : SLB.controller) (port : N) (current_time : float) (c : SLB.counters),
     SLB.flow_counters self !! SLB.port_key dpid port = Some c →
     let r := SLB._update_link_stats dpid port stat current_time self in
     let time_diff := (current_time - SLB.prev_time c)%float in
     (Py.gt time_diff 0 = false → r = (self, [], Returned ())) ∧
     (Py.gt time_diff 0 = true →
        SLB.flow_counters (final_state r) !! SLB.port_key dpid port
        = Some {| SLB.prev_rx := rx_bytes stat;
                  SLB.prev_tx := tx_bytes stat;
                  SLB.prev_time := current_time;
                  SLB.utilization :=
                    ((Py.float_of_int (rx_bytes stat - SLB.prev_rx c) / time_diff
                      + Py.float_of_int (tx_bytes stat - SLB.prev_tx c) / time_diff)
                     / Py.truediv (100 * 1024 * 1024) 8)%float |})) ∧
  (∀ (self : LBC.controller) (c : LBC.counters),
     (port_no stat < OFPP_MAX)%N →
     LBC.flow_counters self !! LBC.port_key dpid (port_no stat) = Some c →
     let r := LBC.port_stats_entry dpid stat self in
     let rx_usage := Py.truediv (rx_bytes stat - LBC.current_rx c) LBC.monitoring_interval in
     let tx_usage := Py.truediv (tx_bytes stat - LBC.current_tx c) LBC.monitoring_interval in
     LBC.flow_counters (final_state r) !! LBC.port_key dpid (port_no stat)
     = Some {| LBC.prev_rx := LBC.current_rx c; LBC.prev_tx := LBC.current_tx c;
               LBC.current_rx := rx_bytes stat; LBC.current_tx := tx_bytes stat |} ∧
     logged (effects r)
     = (if Py.gt rx_usage 1000 || Py.gt tx_usage 1000
        then [(INFO, LBC.log_port dpid (port_no stat) rx_usage tx_usage)] else [])
       ++ (if Py.gt (rx_usage + tx_usage) 1000000
           then [(WARNING, LBC.log_potential_congestion dpid (port_no stat)
                             (rx_usage + tx_usage))]
           else [])).
Proof.
  split.
  - intros self port current_time c Hk r time_diff. subst r time_diff. split.
    + intros Hdt. by apply (slb_update_stale _ _ _ _ _ c).
    + intros Hdt. rewrite (slb_update_fresh _ _ _ _ _ c) by done.
      cbn [final_state fst SLB.flow_counters]. by rewrite lookup_insert_eq.
  - intros self c Hp Hk r rx_usage tx_usage. subst r.
    rewrite (lbc_entry_next _ _ _ c) by done.
    cbn [final_state effects fst snd LBC.flow_counters].
    rewrite lookup_insert_eq. split; [reflexivity|].
    fold rx_usage tx_usage. unfold lbc_rx_usage, lbc_tx_usage.
    fold rx_usage tx_usage.
    destruct (Py.gt rx_usage 1000 || Py.gt tx_usage 1000);
      destruct (Py.gt (rx_usage + tx_usage) 1000000); reflexivity.
Qed.

(** C7, at a duplicate sample (same clock reading as the baseline) for
    simple_load_balancer and at the next sample for
    load_balancer_controller. *)
Lemma sample_rates_witness :
  SLB._update_link_stats "s1" 3 (port3 50000000 0) 1000 slb_polled
  = (slb_polled, [], Returned ()) ∧
  (LBC.current_rx <$>
     LBC.flow_counters
       (final_state (LBC.port_stats_entry "s1" (port3 50000000 0) lbc_polled))
     !! "s1-3") = Some 50000000.
Proof.
  split.
  - refine (proj1 (proj1 (sample_rates "s1" (port3 50000000 0))
                     slb_polled 3%N 1000%float _ _) _).
    + vm_compute. reflexivity.
    + vm_compute. reflexivity.
  - change "s1-3" with (LBC.port_key "s1" (port_no (port3 50000000 0))).
    rewrite (proj1 (proj2 (sample_rates "s1" (port3 50000000 0))
                      lbc_polled _ ltac:(vm_compute; reflexivity)
                      ltac:(vm_compute; reflexivity))).
    reflexivity.
Defined.

(** ** The congested set and the stored utilizations *)

Section Invariant.
Import SimpleLoadBalancer.
Implicit Types (self : controller) (stat : ofp_port_stats) (c : counters).

Lemma congestion_invariant_init : congestion_invariant init.
Proof.
  intros key. unfold init. cbn [congested_links flow_counters]. split.
  - intros Hin. by apply not_elem_of_empty in Hin.
  - intros c Hc. by rewrite lookup_empty in Hc.
Qed.

(** The invariant reads only the counters and the congested set. *)
Lemma congestion_invariant_frame self self' :
  flow_counters self' = flow_counters self →
  congested_links self' = congested_links self →
  congestion_invariant self → congestion_invariant self'.
Proof. unfold congestion_invariant. intros -> ->. done. Qed.

Lemma slb_update_invariant self dpid port stat current_time :
  congestion_invariant self →
  congestion_invariant
    (final_state (_update_link_stats dpid port stat current_time self)).
Proof.
  intros Hinv.
  destruct (flow_counters self !! port_key dpid port) as [c|] eqn:Hk.
  2: { rewrite slb_update_first by done.
       cbn [final_state fst]. intros key.
       destruct (Hinv key) as [Hdom Hiff].
       cbn [flow_counters congested_links].
       destruct (decide (port_key dpid port = key)) as [<-|Hne].
       - rewrite lookup_insert_eq. split; [eauto|].
         intros c' [= <-]. cbn [utilization slb_entry]. split.
         + intros Hin. apply Hdom in Hin. rewrite Hk in Hin. by destruct Hin.
         + intros Hgt. vm_compute in Hgt. discriminate Hgt.
       - by rewrite lookup_insert_ne. }
  destruct (Py.gt (current_time - prev_time c) 0) eqn:Hdt.
  2: { by rewrite (slb_update_stale _ _ _ _ _ c). }
  rewrite (slb_update_fresh _ _ _ _ _ c) by done.
  cbn [final_state fst]. intros key.
  destruct (Hinv key) as [Hdom Hiff].
  cbn [flow_counters congested_links].
  set (u := sample_utilization c stat current_time).
  destruct (decide (port_key dpid port = key)) as [<-|Hne].
  - rewrite lookup_insert_eq. split; [eauto|].
    intros c' [= <-]. cbn [utilization slb_entry].
    destruct (Py.gt u congestion_threshold); split; try done.
    + intros _. apply elem_of_union. right. by apply elem_of_singleton.
    + intros [_ Hn]%elem_of_difference. exfalso. apply Hn.
      by apply elem_of_singleton.
  - rewrite lookup_insert_ne by done.
    assert (key ∈ (if Py.gt u congestion_threshold
                   then congested_links self ∪ {[port_key dpid port]}
                   else congested_links self ∖ {[port_key dpid port]})
            ↔ key ∈ congested_links self) as Hmem.
    { destruct (Py.gt u congestion_threshold).
      - rewrite elem_of_union, elem_of_singleton.
        split; [intros [Hin|Heq]; [done|by destruct Hne] | by left].
      - rewrite elem_of_difference, elem_of_singleton.
        split; [by intros [Hin _] | intros Hin; split; [done|congruence]]. }
    split.
    + intros Hin. by apply Hdom, Hmem.
    + intros c' Hc'. rewrite Hmem. by apply Hiff.
Qed.

Lemma slb_connection_up_run self connections dpid :
  _handle_ConnectionUp connections dpid self
  = ({| mac_table := <[dpid := ∅]> (mac_table self);
        flow_counters := flow_counters self;
        congested_links := congested_links self |},
     [Log INFO (log_connected dpid);
      Send dpid table_miss_rule;
      Log DEBUG (log_table_miss dpid);
      Send dpid port_stats_request;
      CallLater monitoring_interval],
     Returned ()).
Proof. reflexivity. Qed.

(** Requesting statistics changes nothing in the controller. *)
Lemma slb_request_stats_state self connections connection :
  final_state (_request_stats connections connection self) = self.
Proof.
  destruct connection as [c|]; [reflexivity|].
  unfold _request_stats, mbind, handler_bind, hbind.
  pose proof (for_each_invariant (L := log_record) (λ s, s = self) connections
                _request_stats_for_connection) as Hloop.
  cbn beta in Hloop. specialize (Hloop ltac:(by intros x s ->) self eq_refl).
  destruct (for_each connections _ self) as [[s1 out1] [[]|e]];
    cbn in Hloop; by subst s1.
Qed.

Lemma slb_handle_invariant (ev : event) self :
  congestion_invariant self →
  congestion_invariant (final_state (handle ev self)).
Proof.
  intros Hinv. destruct ev as [connections dpid|e|dpid stats|connections]; cbn [handle].
  - rewrite slb_connection_up_run. by eapply congestion_invariant_frame.
  - rewrite slb_packet_in_state. by eapply congestion_invariant_frame.
  - unfold _handle_PortStatsReceived.
    apply for_each_invariant; [|done].
    intros [stat t] s Hs. case_bool_decide; [done|].
    by apply slb_update_invariant.
  - by rewrite slb_request_stats_state.
Qed.

End Invariant.

(** C10.  In simple_load_balancer the congested set mirrors the stored
    utilizations: every key of the congested set has a port-counter entry,
    and a key that has an entry is in the congested set exactly when the
    utilization stored in the entry is strictly above the threshold.  This
    holds of the initial controller and is kept by every handler
    (connection-up, packet-in, port-stats and the statistics timer); in
    particular an entry just created holds utilization 0 and its key is not
    in the congested set. *)
Theorem congested_set_mirrors_utilization :
  congestion_invariant SLB.init ∧
  (∀ (ev : SLB.event) (self : SLB.controller),
     congestion_invariant self →
     congestion_invariant (final_state (SLB.handle ev self))) ∧
  (∀ (self : SLB.controller) dpid port stat current_time,
     congestion_invariant self →
     SLB.flow_counters self !! SLB.port_key dpid port = None →
     let self' := final_state (SLB._update_link_stats dpid port stat current_time self) in
     SLB.utilization <$> SLB.flow_counters self' !! SLB.port_key dpid port
     = Some 0%float ∧
     SLB.port_key dpid port ∉ SLB.congested_links self').
Proof.
  split; [exact congestion_invariant_init|].
  split; [exact slb_handle_invariant|].
  intros self dpid port stat current_time Hinv Hk self'.
  pose proof (slb_update_invariant self dpid port stat current_time Hinv) as Hinv'.
  fold self' in Hinv'. subst self'.
  rewrite slb_update_first in * by done. cbn [final_state fst] in *.
  cbn [SLB.flow_counters SLB.congested_links] in *.
  rewrite lookup_insert_eq. split; [reflexivity|].
  destruct (Hinv (SLB.port_key dpid port)) as [Hdom _].
  intros Hin. apply Hdom in Hin. rewrite Hk in Hin. by destruct Hin.
Qed.

(** C10, at the busy samples of port 3 arriving at the initial
    controller's successor states. *)
Lemma congested_set_mirrors_utilization_witness :
  congestion_invariant
    (final_state (SLB.handle (SLB.PortStatsReceived "s1" busy_samples)
       (final_state (SLB.handle (SLB.PortStatsReceived "s1" [(port3 0 0, 1000%float)])
          SLB.init)))).
Proof.
  apply (proj1 (proj2 congested_set_mirrors_utilization)).
  apply (proj1 (proj2 congested_set_mirrors_utilization)).
  intros key. unfold SLB.init. cbn [SLB.congested_links SLB.flow_counters]. split.
  - intros Hin. by apply not_elem_of_empty in Hin.
  - intros c Hc. by rewrite lookup_empty in Hc.
Defined.

(** ** Which switches have a learning table *)

Section Tables.
Implicit Types (dpid : string).

Lemma slb_update_mac_table self dpid port stat current_time :
  SLB.mac_table (final_state (SLB._update_link_stats dpid port stat current_time self))
  = SLB.mac_table self.
Proof.
  destruct (SLB.flow_counters self !! SLB.port_key dpid port) as [c|] eqn:Hk.
  2: { by rewrite slb_update_first. }
  destruct (Py.gt (current_time - SLB.prev_time c) 0) eqn:Hdt.
  - by rewrite (slb_update_fresh _ _ _ _ _ c).
  - by rewrite (slb_update_stale _ _ _ _ _ c).
Qed.

(** Only connection-up creates a table. *)
Lemma slb_handle_tables (ev : SLB.event) self dpid :
  is_Some (SLB.mac_table (final_state (SLB.handle ev self)) !! dpid)
  ↔ is_Some (SLB.mac_table self !! dpid) ∨ ∃ connections, ev = SLB.ConnectionUp connections dpid.
Proof.
  destruct ev as [connections d|e|d stats|connections]; cbn [SLB.handle].
  - rewrite slb_connection_up_run. cbn [final_state fst SLB.mac_table].
    destruct (decide (d = dpid)) as [->|Hne].
    + rewrite lookup_insert_eq. split; eauto.
    + rewrite lookup_insert_ne by done.
      split; [by left|]. intros [H|[c [= _ ?]]]; done.
  - rewrite slb_packet_in_mac_table. split.
    2: { intros [H|[c [=]]].
         destruct (parsed (ev_parsed e)); [|done].
         destruct (SLB.mac_table self !! ev_dpid e) eqn:Ht; [|done].
         destruct (decide (ev_dpid e = dpid)) as [->|Hne].
         - rewrite lookup_insert_eq. eauto.
         - by rewrite lookup_insert_ne. }
    intros H. left.
    destruct (parsed (ev_parsed e)); [|done].
    destruct (SLB.mac_table self !! ev_dpid e) eqn:Ht; [|done].
    destruct (decide (ev_dpid e = dpid)) as [<-|Hne].
    + rewrite Ht. eauto.
    + by rewrite lookup_insert_ne in H.
  - assert (SLB.mac_table (final_state (SLB._handle_PortStatsReceived d stats self))
            = SLB.mac_table self) as ->.
    { unfold SLB._handle_PortStatsReceived.
      apply (for_each_invariant (λ s, SLB.mac_table s = SLB.mac_table self)); [|done].
      intros [stat t] s Hs. case_bool_decide; [done|].
      by rewrite slb_update_mac_table. }
    split; [by left|]. intros [H|[c [=]]]; done.
  - rewrite slb_request_stats_state.
    split; [by left|]. intros [H|[c [=]]]; done.
Qed.

Lemma slb_run_tables (evs : list SLB.event) self dpid :
  is_Some (SLB.mac_table (SLB.run evs self) !! dpid)
  ↔ is_Some (SLB.mac_table self !! dpid)
    ∨ ∃ connections, SLB.ConnectionUp connections dpid ∈ evs.
Proof.
  revert self. induction evs as [|ev evs IH]; intros self.
  - cbn. split; [by left|]. intros [H|[c H]]; [done|]. by apply elem_of_nil in H.
  - change (SLB.run (ev :: evs) self)
      with (SLB.run evs (final_state (SLB.handle ev self))).
    rewrite IH, slb_handle_tables. split.
    + intros [[H|[c Hev]]|[c H]].
      * by left.
      * right. exists c. subst ev. left.
      * right. exists c. by right.
    + intros [H|[c H]]; [by left; left|].
      apply elem_of_cons in H as [Hev|H]; [left; right; eauto|right; eauto].
Qed.

Lemma lbc_connection_up_run self connections dpid :
  LBC._handle_ConnectionUp connections dpid self
  = ({| LBC.switch_stats := <[dpid := ∅]> (LBC.switch_stats self);
        LBC.flow_counters := LBC.flow_counters self;
        LBC.mac_to_port := <[dpid := ∅]> (LBC.mac_to_port self) |},
     [Log INFO (LBC.log_connected dpid);
      Send dpid port_stats_request;
      CallLater LBC.monitoring_interval],
     Returned ()).
Proof. reflexivity. Qed.

Lemma lbc_request_stats_state self connections connection :
  final_state (LBC._request_stats connections connection self) = self.
Proof.
  destruct connection as [c|]; [reflexivity|].
  unfold LBC._request_stats, mbind, handler_bind, hbind.
  pose proof (for_each_invariant (L := LBC.log_record) (λ s, s = self) connections
                LBC._request_stats_for_connection) as Hloop.
  cbn beta in Hloop. specialize (Hloop ltac:(by intros x s ->) self eq_refl).
  destruct (for_each connections _ self) as [[s1 out1] [[]|e]];
    cbn in Hloop; by subst s1.
Qed.

Lemma lbc_entry_mac_to_port self dpid stat :
  LBC.mac_to_port (final_state (LBC.port_stats_entry dpid stat self))
  = LBC.mac_to_port self.
Proof.
  destruct (decide (OFPP_MAX ≤ port_no stat)%N) as [Hp|Hp].
  { by rewrite lbc_entry_reserved. }
  destruct (LBC.flow_counters self !! LBC.port_key dpid (port_no stat)) as [c|] eqn:Hk.
  - rewrite (lbc_entry_next _ _ _ c) by (done || lia). reflexivity.
  - rewrite lbc_entry_first by (done || lia). reflexivity.
Qed.

Lemma lbc_handle_tables (ev : LBC.event) self dpid :
  is_Some (LBC.mac_to_port (final_state (LBC.handle ev self)) !! dpid)
  ↔ is_Some (LBC.mac_to_port self !! dpid) ∨ ∃ connections, ev = LBC.ConnectionUp connections dpid.
Proof.
  destruct ev as [connections d|e|d stats|connections]; cbn [LBC.handle].
  - rewrite lbc_connection_up_run. cbn [final_state fst LBC.mac_to_port].
    destruct (decide (d = dpid)) as [->|Hne].
    + rewrite lookup_insert_eq. split; eauto.
    + rewrite lookup_insert_ne by done.
      split; [by left|]. intros [H|[c [= _ ?]]]; done.
  - rewrite lbc_packet_in_mac_to_port. split.
    2: { intros [H|[c [=]]]. apply (lbc_step_table e) in H.
         by rewrite lbc_packet_in_mac_to_port in H. }
    intros H. left.
    destruct (parsed (ev_parsed e)); [|done].
    destruct (LBC.mac_to_port self !! ev_dpid e) eqn:Ht; [|done].
    destruct (decide (ev_dpid e = dpid)) as [<-|Hne].
    + rewrite Ht. eauto.
    + by rewrite lookup_insert_ne in H.
  - assert (LBC.mac_to_port (final_state (LBC._handle_PortStatsReceived d stats self))
            = LBC.mac_to_port self) as ->.
    { unfold LBC._handle_PortStatsReceived.
      apply (for_each_invariant (λ s, LBC.mac_to_port s = LBC.mac_to_port self)); [|done].
      intros stat s Hs. by rewrite lbc_entry_mac_to_port. }
    split; [by left|]. intros [H|[c [=]]]; done.
  - rewrite lbc_request_stats_state.
    split; [by left|]. intros [H|[c [=]]]; done.
Qed.

Lemma lbc_run_tables (evs : list LBC.event) self dpid :
  is_Some (LBC.mac_to_port (LBC.run evs self) !! dpid)
  ↔ is_Some (LBC.mac_to_port self !! dpid)
    ∨ ∃ connections, LBC.ConnectionUp connections dpid ∈ evs.
Proof.
  revert self. induction evs as [|ev evs IH]; intros self.
  - cbn. split; [by left|]. intros [H|[c H]]; [done|]. by apply elem_of_nil in H.
  - change (LBC.run (ev :: evs) self)
      with (LBC.run evs (final_state (LBC.handle ev self))).
    rewrite IH, lbc_handle_tables. split.
    + intros [[H|[c Hev]]|[c H]].
      * by left.
      * right. exists c. subst ev. left.
      * right. exists c. by right.
    + intros [H|[c H]]; [by left; left|].
      apply elem_of_cons in H as [Hev|H]; [left; right; eauto|right; eauto].
Qed.

End Tables.

(** ** The learning policy of the two controllers *)

(** C1 as stated fails on simple_load_balancer: an address learned on port
    1 and seen again on port 2 stays on port 1, because the table is
    written only when the address is not in it. *)
Lemma slb_not_latest_write_wins :
  ¬ latest_write_wins (λ self dpid, SLB.mac_table self !! dpid)
      slb_observe slb_lookup.
Proof.
  intros Hclaim.
  specialize (Hclaim slb_s1 [ip_aa_to_bb] [] ip_aa_moved).
  assert (slb_lookup (slb_observe ([ip_aa_to_bb] ++ [ip_aa_moved]) slb_s1)
            "s1" 0xaa = Some 1%N) as Hrun by (vm_compute; reflexivity).
  cbn [ev_dpid ev_parsed ev_port src ip_aa_moved sample_packet] in Hclaim.
  rewrite Hrun in Hclaim.
  assert (Some 1%N = Some 2%N) as Habsurd; [|discriminate Habsurd].
  apply Hclaim.
  - eexists. vm_compute. reflexivity.
  - reflexivity.
  - intros e' He'. by apply elem_of_nil in He'.
Qed.

(** C1, amended.  In load_balancer_controller the learning step writes the
    source address unconditionally, so after any sequence of packet-ins the
    lookup of an address returns the ingress port of the last packet that
    observed it (latest write wins).  In simple_load_balancer the learning
    step writes only an address that is not yet in the switch's table, so
    the lookup returns the ingress port of the first packet that observed
    it, and a learned address keeps its port through every later
    packet-in (first write wins). *)
Theorem learning_policy :
  latest_write_wins (λ self dpid, LBC.mac_to_port self !! dpid)
    lbc_observe lbc_lookup ∧
  first_write_wins (λ self dpid, SLB.mac_table self !! dpid)
    slb_observe slb_lookup ∧
  (∀ (self : SLB.controller) (evs : list packet_in_event) dpid addr p,
     slb_lookup self dpid addr = Some p →
     slb_lookup (slb_observe evs self) dpid addr = Some p).
Proof.
  split; [exact lbc_latest_write_wins|].
  split; [exact slb_first_write_wins|].
  intros self evs dpid addr p. apply slb_observe_lookup_kept.
Qed.

(** C1, at an address seen on port 1 and then on port 2 of switch s1. *)
Lemma learning_policy_witness :
  lbc_lookup (lbc_observe ([ip_aa_to_bb] ++ ip_aa_moved :: []) lbc_s1) "s1" 0xaa
  = Some 2%N ∧
  slb_lookup (slb_observe ([] ++ ip_aa_to_bb :: [ip_aa_moved]) slb_s1) "s1" 0xaa
  = Some 1%N.
Proof.
  split.
  - apply (proj1 learning_policy lbc_s1 [ip_aa_to_bb] [] ip_aa_moved).
    + eexists. vm_compute. reflexivity.
    + reflexivity.
    + intros e' He'. by apply elem_of_nil in He'.
  - apply (proj1 (proj2 learning_policy) slb_s1 [] [ip_aa_moved] ip_aa_to_bb ∅).
    + vm_compute. reflexivity.
    + reflexivity.
    + reflexivity.
    + intros e' He'. by apply elem_of_nil in He'.
Defined.

(** ** Packet-in from a switch without a table *)

(** C2 as stated fails on both controllers: a parsed packet-in from a
    switch that never connected raises KeyError, and the switch still has
    no table afterwards. *)
Lemma unknown_switch_packet_in_raises :
  result (SLB._handle_PacketIn ip_aa_to_bb SLB.init) = Raise KeyError ∧
  SLB.mac_table (final_state (SLB._handle_PacketIn ip_aa_to_bb SLB.init)) !! "s1" = None ∧
  result (LBC._handle_PacketIn ip_aa_to_bb LBC.init) = Raise KeyError ∧
  LBC.mac_to_port (final_state (LBC._handle_PacketIn ip_aa_to_bb LBC.init)) !! "s1" = None.
Proof. vm_compute. done. Qed.

(** C2, amended.  In both controllers a switch has a learning table only
    once a connection-up event for it has been processed.  A parsed
    packet-in carrying a switch id for which none was processed raises
    KeyError at the first table access: the controller is unchanged, no
    table is created and nothing is sent.  A packet-in from a switch that
    has a table returns, and so does an unparsed packet-in from any
    switch. *)
Theorem packet_in_needs_connection_up (e : packet_in_event) :
  (∀ evs : list SLB.event,
     parsed (ev_parsed e) = true →
     (∀ connections, SLB.ConnectionUp connections (ev_dpid e) ∉ evs) →
     SLB._handle_PacketIn e (SLB.run evs SLB.init)
     = (SLB.run evs SLB.init, [], Raise KeyError)) ∧
  (∀ evs : list LBC.event,
     parsed (ev_parsed e) = true →
     (∀ connections, LBC.ConnectionUp connections (ev_dpid e) ∉ evs) →
     LBC._handle_PacketIn e (LBC.run evs LBC.init)
     = (LBC.run evs LBC.init, [], Raise KeyError)) ∧
  (∀ self : SLB.controller,
     is_Some (SLB.mac_table self !! ev_dpid e) ∨ parsed (ev_parsed e) = false →
     result (SLB._handle_PacketIn e self) = Returned ()) ∧
  (∀ self : LBC.controller,
     is_Some (LBC.mac_to_port self !! ev_dpid e) ∨ parsed (ev_parsed e) = false →
     result (LBC._handle_PacketIn e self) = Returned ()).
Proof.
  split; [|split; [|split]].
  - intros evs Hp Hnone. apply slb_packet_in_no_table; [done|].
    apply eq_None_not_Some. intros Hsome.
    apply slb_run_tables in Hsome as [Hinit|[c Hc]].
    + unfold SLB.init in Hinit. cbn in Hinit. rewrite lookup_empty in Hinit.
      by destruct Hinit.
    + by apply (Hnone c).
  - intros evs Hp Hnone. apply lbc_packet_in_no_table; [done|].
    apply eq_None_not_Some. intros Hsome.
    apply lbc_run_tables in Hsome as [Hinit|[c Hc]].
    + unfold LBC.init in Hinit. cbn in Hinit. rewrite lookup_empty in Hinit.
      by destruct Hinit.
    + by apply (Hnone c).
  - intros self [[table Ht]|Hp].
    + destruct (parsed (ev_parsed e)) eqn:Hp.
      * by destruct (slb_packet_in_sent self e table Hp Ht).
      * by rewrite slb_packet_in_unparsed.
    + by rewrite slb_packet_in_unparsed.
  - intros self [[table Ht]|Hp].
    + destruct (parsed (ev_parsed e)) eqn:Hp.
      * by destruct (lbc_packet_in_sent self e table Hp Ht).
      * by rewrite lbc_packet_in_unparsed.
    + by rewrite lbc_packet_in_unparsed.
Qed.

(** C2, at a packet from switch s2 when only s1 has connected. *)
Lemma packet_in_needs_connection_up_witness :
  let e := sample_packet "s2" 1 0xaa 0xbb 0x0800 in
  let evs := [SLB.ConnectionUp ["s1"] "s1"] in
  SLB._handle_PacketIn e (SLB.run evs SLB.init)
  = (SLB.run evs SLB.init, [], Raise KeyError).
Proof.
  intros e evs.
  apply (proj1 (packet_in_needs_connection_up e) evs).
  - reflexivity.
  - intros connections Hin. apply list_elem_of_singleton in Hin. discriminate Hin.
Defined.

(** ** Flooding *)

(** C4 as stated fails on load_balancer_controller: for a destination that
    is not in the table it installs a flow rule whose action is the flood
    port and sends no packet-out. *)
Lemma lbc_flood_installs_rule :
  lbc_lookup lbc_s1 "s1" 0xbb = None ∧
  sent (effects (LBC._handle_PacketIn ip_aa_to_bb lbc_s1))
  = [("s1", forwarding_rule ip_aa_to_bb OFPP_FLOOD)] ∧
  filter is_flow_mod (sent (effects (LBC._handle_PacketIn ip_aa_to_bb lbc_s1))) ≠ [] ∧
  filter is_packet_out (sent (effects (LBC._handle_PacketIn ip_aa_to_bb lbc_s1))) = [].
Proof. vm_compute. done. Qed.

(** C4, amended.  In simple_load_balancer a packet-in that floods (an ARP
    packet, or another packet that is neither LLDP nor IPv6 and whose
    destination is not in the switch's table after the learning step)
    sends exactly one message, a packet-out with the flood action, and no
    flow rule; the only change to the controller is the learning step, so
    the next packet to a destination that is still unknown floods again.
    In load_balancer_controller a packet-in whose destination is not in
    the table sends exactly one message, a flow rule (idle timeout 10,
    hard timeout 30) whose action is the flood port, and no packet-out. *)
Theorem flood_commands (e : packet_in_event) (table : gmap N N) :
  parsed (ev_parsed e) = true →
  (∀ self : SLB.controller,
     SLB.mac_table self !! ev_dpid e = Some table →
     type (ev_parsed e) ≠ LLDP_TYPE → type (ev_parsed e) ≠ IPV6_TYPE →
     type (ev_parsed e) = ARP_TYPE ∨ slb_learned table e !! dst (ev_parsed e) = None →
     let r := SLB._handle_PacketIn e self in
     sent (effects r) = [(ev_dpid e, flood_packet_out e)] ∧
     result r = Returned () ∧
     final_state r
     = {| SLB.mac_table := <[ev_dpid e := slb_learned table e]> (SLB.mac_table self);
          SLB.flow_counters := SLB.flow_counters self;
          SLB.congested_links := SLB.congested_links self |}) ∧
  (∀ self : LBC.controller,
     LBC.mac_to_port self !! ev_dpid e = Some table →
     <[src (ev_parsed e) := ev_port e]> table !! dst (ev_parsed e) = None →
     let r := LBC._handle_PacketIn e self in
     sent (effects r) = [(ev_dpid e, forwarding_rule e OFPP_FLOOD)] ∧
     result r = Returned ()).
Proof.
  intros Hp. split.
  - intros self Ht Hl Hi Hflood r. subst r.
    destruct (slb_packet_in_sent self e table Hp Ht) as [Hr Hs].
    rewrite Hr, Hs, slb_packet_in_state, Hp, Ht.
    rewrite !bool_decide_eq_false_2 by done. cbn [orb].
    split; [|done]. clear Hr Hs.
    case_bool_decide as Harp; [done|].
    destruct Hflood as [Ha|Hd]; [done|]. by rewrite Hd.
  - intros self Ht Hd r. subst r.
    destruct (lbc_packet_in_sent self e table Hp Ht) as [Hr Hs].
    by rewrite Hr, Hs, Hd.
Qed.

(** C4, at a packet to the unknown address bb on switch s1. *)
Lemma flood_commands_witness :
  sent (effects (SLB._handle_PacketIn ip_aa_to_bb slb_s1))
  = [("s1", flood_packet_out ip_aa_to_bb)] ∧
  sent (effects (LBC._handle_PacketIn ip_aa_to_bb lbc_s1))
  = [("s1", forwarding_rule ip_aa_to_bb OFPP_FLOOD)].
Proof.
  split.
  - refine (proj1 (proj1 (flood_commands ip_aa_to_bb ∅ _) slb_s1 _ _ _ _)).
    + reflexivity.
    + vm_compute. reflexivity.
    + discriminate.
    + discriminate.
    + right. vm_compute. reflexivity.
  - refine (proj1 (proj2 (flood_commands ip_aa_to_bb ∅ _) lbc_s1 _ _)).
    + reflexivity.
    + vm_compute. reflexivity.
    + vm_compute. reflexivity.
Defined.

(** ** Connection-up *)

(** C8 as stated fails on load_balancer_controller: its connection-up
    handler sends a port-stats request and no flow rule at all. *)
Lemma lbc_connection_up_installs_nothing :
  sent (effects (LBC._handle_ConnectionUp ["s1"] "s1" LBC.init))
  = [("s1", port_stats_request)] ∧
  filter is_flow_mod (sent (effects (LBC._handle_ConnectionUp ["s1"] "s1" LBC.init))) = [].
Proof. vm_compute. done. Qed.

(** C8, amended.  In simple_load_balancer every connection-up event sends
    exactly one flow rule to the switch, as the first message of the
    handler: wildcard-all match, one action that outputs to the
    controller, priority 0, idle and hard timeout 0 (none); and a parsed
    packet-in from a switch is handled without error only after a
    connection-up event of that switch has been processed.  In
    load_balancer_controller a connection-up event sends no flow rule,
    only a port-stats request. *)
Theorem table_miss_rule_on_connection_up (connections : list string) (dpid : string) :
  (∀ self : SLB.controller,
     sent (effects (SLB._handle_ConnectionUp connections dpid self))
     = [(dpid, table_miss_rule); (dpid, port_stats_request)] ∧
     result (SLB._handle_ConnectionUp connections dpid self) = Returned ()) ∧
  (∀ (evs : list SLB.event) (e : packet_in_event),
     parsed (ev_parsed e) = true →
     result (SLB._handle_PacketIn e (SLB.run evs SLB.init)) = Returned () →
     ∃ connections', SLB.ConnectionUp connections' (ev_dpid e) ∈ evs) ∧
  (∀ self : LBC.controller,
     sent (effects (LBC._handle_ConnectionUp connections dpid self))
     = [(dpid, port_stats_request)]).
Proof.
  split; [|split].
  - intros self. by rewrite slb_connection_up_run.
  - intros evs e Hp Hr.
    destruct (SLB.mac_table (SLB.run evs SLB.init) !! ev_dpid e) as [table|] eqn:Ht.
    + assert (is_Some (SLB.mac_table (SLB.run evs SLB.init) !! ev_dpid e)) as Hsome
        by (rewrite Ht; eauto).
      apply slb_run_tables in Hsome as [Hinit|Hup]; [|done].
      unfold SLB.init in Hinit. cbn in Hinit. rewrite lookup_empty in Hinit.
      by destruct Hinit.
    + rewrite slb_packet_in_no_table in Hr by done. discriminate Hr.
  - intros self. by rewrite lbc_connection_up_run.
Qed.

(** C8, at a packet-in handled after the connection-up of s1. *)
Lemma table_miss_rule_on_connection_up_witness :
  ∃ connections', SLB.ConnectionUp connections' "s1" ∈ [SLB.ConnectionUp ["s1"] "s1"].
Proof.
  apply (proj1 (proj2 (table_miss_rule_on_connection_up [] "s1"))
           [SLB.ConnectionUp ["s1"] "s1"] ip_aa_to_bb).
  - reflexivity.
  - vm_compute. reflexivity.
Defined.

(** ** Unicast *)

(** C9.  A packet-in that is forwarded to a learned port sends exactly two
    messages: a flow rule whose match is taken from the packet at its
    ingress port, whose single action outputs to the learned port, with
    idle timeout 10, hard timeout 30 and the default priority; and a
    packet-out of the triggering packet to that port.  This is every
    parsed packet-in with a known destination in load_balancer_controller
    (the learned port being a real port, not the flood port), and in
    simple_load_balancer every such packet-in that is not ARP, LLDP or
    IPv6. *)
Theorem unicast_commands
    (e : packet_in_event) (table : gmap N N) (out_port : N) :
  parsed (ev_parsed e) = true →
  (∀ self : SLB.controller,
     SLB.mac_table self !! ev_dpid e = Some table →
     type (ev_parsed e) ≠ LLDP_TYPE → type (ev_parsed e) ≠ IPV6_TYPE →
     type (ev_parsed e) ≠ ARP_TYPE →
     slb_learned table e !! dst (ev_parsed e) = Some out_port →
     let r := SLB._handle_PacketIn e self in
     sent (effects r)
     = [(ev_dpid e, forwarding_rule e out_port);
        (ev_dpid e, unicast_packet_out e out_port)] ∧
     result r = Returned ()) ∧
  (∀ self : LBC.controller,
     LBC.mac_to_port self !! ev_dpid e = Some table →
     <[src (ev_parsed e) := ev_port e]> table !! dst (ev_parsed e) = Some out_port →
     out_port ≠ OFPP_FLOOD →
     let r := LBC._handle_PacketIn e self in
     sent (effects r)
     = [(ev_dpid e, forwarding_rule e out_port);
        (ev_dpid e,
         packet_out {| po_payload := data_of_bytes (pi_data (ev_ofp e));
                       po_actions := [{| port := out_port |}];
                       po_in_port := pi_in_port (ev_ofp e) |})] ∧
     result r = Returned ()).
Proof.
  intros Hp. split.
  - intros self Ht Hl Hi Ha Hd r. subst r.
    destruct (slb_packet_in_sent self e table Hp Ht) as [Hr Hs].
    rewrite Hr, Hs, Hd. by rewrite !bool_decide_eq_false_2 by done.
  - intros self Ht Hd Hreal r. subst r.
    destruct (lbc_packet_in_sent self e table Hp Ht) as [Hr Hs].
    rewrite Hr, Hs, Hd. by rewrite bool_decide_eq_true_2 by done.
Qed.

(** C9, at a packet from bb on port 2 to aa, learned on port 1 of s1. *)
Lemma unicast_commands_witness :
  sent (effects (SLB._handle_PacketIn ip_bb_to_aa slb_s1_aa))
  = [("s1", forwarding_rule ip_bb_to_aa 1); ("s1", unicast_packet_out ip_bb_to_aa 1)] ∧
  sent (effects (LBC._handle_PacketIn ip_bb_to_aa lbc_s1_aa))
  = [("s1", forwarding_rule ip_bb_to_aa 1);
     ("s1", packet_out {| po_payload := data_of_bytes [];
                          po_actions := [{| port := 1 |}];
                          po_in_port := 2 |})].
Proof.
  split.
  - refine (proj1 (proj1 (unicast_commands ip_bb_to_aa {[ 0xaa%N := 1%N ]} 1%N _)
                     slb_s1_aa _ _ _ _ _)).
    + reflexivity.
    + vm_compute. reflexivity.
    + discriminate.
    + discriminate.
    + discriminate.
    + vm_compute. reflexivity.
  - refine (proj1 (proj2 (unicast_commands ip_bb_to_aa {[ 0xaa%N := 1%N ]} 1%N _)
                     lbc_s1_aa _ _ _)).
    + reflexivity.
    + vm_compute. reflexivity.
    + vm_compute. reflexivity.
    + discriminate.
Defined.

(** ** Trails, loops and leaves *)

Section Graphs.
Context (links : list (string * string)).
Implicit Types (u v w : string) (path : list nat) (i j : nat).

Lemma joins_sym i u v : joins links i u v → joins links i v u.
Proof. intros [H|H]; [by right|by left]. Qed.

Lemma trail_app u v w path1 path2 :
  trail links u path1 v → trail links v path2 w → trail links u (path1 ++ path2) w.
Proof.
  induction 1 as [u|u x v i path1 Hj _ IH]; intros H2; [done|].
  cbn [app]. eapply trail_cons; [done|]. by apply IH.
Qed.

Lemma trail_rev u v path :
  trail links u path v → trail links v (rev path) u.
Proof.
  induction 1 as [u|u x v i path Hj _ IH]; [constructor|].
  cbn [rev]. eapply trail_app; [done|].
  eapply trail_cons; [by apply joins_sym|constructor].
Qed.

Lemma trail_split u w path1 i path2 :
  trail links u (path1 ++ i :: path2) w →
  ∃ x y, trail links u path1 x ∧ joins links i x y ∧ trail links y path2 w.
Proof.
  revert u. induction path1 as [|j path1 IH]; intros u H; cbn [app] in H.
  - inversion H; subst. eexists _, _. split; [constructor|]. done.
  - inversion H as [|? x ? ? ? Hj Ht]; subst.
    destruct (IH _ Ht) as (x' & y & H1 & Hi & H2).
    exists x', y. split; [|done]. by eapply trail_cons.
Qed.

(** The first link of a trail leaves its start, the last enters its end. *)
Lemma trail_first u w i path :
  trail links u (i :: path) w → ∃ x, joins links i u x.
Proof. inversion 1; subst. eauto. Qed.

Lemma trail_last u w path :
  trail links u path w → path ≠ [] →
  ∃ path' j x, path = path' ++ [j] ∧ joins links j x w.
Proof.
  induction 1 as [u|u x w i path Hj Ht IH]; intros Hne; [done|].
  destruct path as [|i' path].
  - inversion Ht; subst. exists [], i, u. done.
  - destruct IH as (path' & j & y & -> & Hjy); [done|].
    exists (i :: path'), j, y. done.
Qed.

Lemma walk_trail u path w :
  walk links u path = Some w → trail links u path w.
Proof.
  revert u. induction path as [|i path IH]; intros u; cbn [walk].
  - intros [= ->]. constructor.
  - destruct (links !! i) as [[a b]|] eqn:Hi; [|done].
    case_bool_decide as Ha; [|case_bool_decide as Hb; [|done]]; intros Hw.
    + subst a. eapply trail_cons; [by left|]. by apply IH.
    + subst b. eapply trail_cons; [by right|]. by apply IH.
Qed.

Lemma all_reached_connected root nodes paths :
  all_reached links root nodes paths = true → connected links nodes.
Proof.
  unfold all_reached. rewrite forallb_forall. intros Hall.
  assert (∀ n, n ∈ nodes → ∃ path, trail links root path n) as Hroot.
  { intros n Hn. apply list_elem_of_In, Hall, existsb_exists in Hn as (e & _ & He).
    apply bool_decide_eq_true in He. eauto using walk_trail. }
  intros u v Hu Hv.
  destruct (Hroot u Hu) as [pu Hpu]. destruct (Hroot v Hv) as [pv Hpv].
  exists (rev pu ++ pv). eapply trail_app; [by apply trail_rev|done].
Qed.

(** A loop cannot pass through a leaf: it would have to use the leaf's
    only link twice. *)
Lemma leaf_not_on_loop (allowed : nat → Prop) v i a b :
  links !! i = Some (a, b) → a ≠ b → v = a ∨ v = b →
  (∀ j x y, allowed j → j ≠ i → links !! j = Some (x, y) → x ≠ v ∧ y ≠ v) →
  has_loop_among allowed links →
  has_loop_among (λ j, allowed j ∧ j ≠ i) links.
Proof.
  intros Hi Hab Hv Hleaf (u & path & Hne & Hdup & Hall & Htrail).
  destruct (decide (i ∈ path)) as [Hin|Hout].
  2: { exists u, path. repeat split; try done.
       rewrite Forall_forall in Hall |- *. intros j Hj.
       split; [by apply Hall|]. intros ->. done. }
  exfalso.
  assert (∀ j x, j ∈ path → j ≠ i → ¬ (joins links j v x ∨ joins links j x v)) as Hnone.
  { intros j x Hj Hji Hjoin. rewrite Forall_forall in Hall.
    assert (joins links j v x) as [H|H] by (destruct Hjoin; [done|by apply joins_sym]).
    - destruct (Hleaf j v x (Hall j Hj) Hji H). done.
    - destruct (Hleaf j x v (Hall j Hj) Hji H). done. }
  apply list_elem_of_split in Hin as (path1 & path2 & ->).
  apply NoDup_app in Hdup as (_ & Hdisj & Hdup2).
  apply NoDup_cons in Hdup2 as [Hi2 _].
  assert (i ∉ path1) as Hi1 by (intros H; apply (Hdisj i H); left).
  destruct (trail_split _ _ _ _ _ Htrail) as (x & y & H1 & Hxy & H2).
  assert (x ≠ y ∧ (x = v ∨ y = v)) as [Hne' Hends].
  { destruct Hxy as [H|H]; rewrite Hi in H; injection H as <- <-;
      split; try done; destruct Hv; subst; eauto. }
  assert (∀ j, j ∈ path1 → j ∈ path1 ++ i :: path2) as Hm1
    by (intros; apply elem_of_app; by left).
  assert (∀ j, j ∈ path2 → j ∈ path1 ++ i :: path2) as Hm2
    by (intros; apply elem_of_app; right; by right).
  destruct Hends as [-> | ->].
  - (* link i leaves v *)
    destruct path1 as [|j1 path1'].
    + inversion H1; subst.
      destruct path2 as [|j2 path2'].
      * inversion H2; subst. done.
      * destruct (trail_last _ _ _ H2) as (p & j & z & Hp & Hj); [done|].
        apply (Hnone j z).
        -- apply Hm2. rewrite Hp. apply elem_of_app. right. left.
        -- intros ->. apply Hi2. rewrite Hp. apply elem_of_app. right. left.
        -- by right.
    + destruct (trail_last _ _ _ H1) as (p & j & z & Hp & Hj); [done|].
      apply (Hnone j z).
      * apply Hm1. rewrite Hp. apply elem_of_app. right. left.
      * intros ->. apply Hi1. rewrite Hp. apply elem_of_app. right. left.
      * by right.
  - (* link i enters v *)
    destruct path2 as [|j2 path2'].
    + inversion H2; subst.
      destruct path1 as [|j1 path1'].
      * inversion H1; subst. done.
      * destruct (trail_first _ _ _ _ H1) as [z Hj].
        apply (Hnone j1 z).
        -- apply Hm1. left.
        -- intros ->. apply Hi1. left.
        -- by left.
    + destruct (trail_first _ _ _ _ H2) as [z Hj].
      apply (Hnone j2 z).
      * apply Hm2. left.
      * intros ->. apply Hi2. left.
      * by left.
Qed.

Lemma is_leaf_link_spec removed v i :
  is_leaf_link links removed v i = true →
  ∃ a b, links !! i = Some (a, b) ∧ a ≠ b ∧ (v = a ∨ v = b) ∧ (i ∉ removed) ∧
         ∀ j x y, j ∉ removed → j ≠ i → links !! j = Some (x, y) → x ≠ v ∧ y ≠ v.
Proof.
  unfold is_leaf_link. destruct (links !! i) as [[a b]|] eqn:Hi; [|done].
  rewrite !andb_true_iff, forallb_forall.
  intros [[[Hab Hinc] Hrem] Hothers].
  apply bool_decide_eq_true in Hab, Hrem.
  exists a, b. repeat split; try done.
  - unfold incident in Hinc. cbn in Hinc. apply orb_true_iff in Hinc.
    destruct Hinc as [H|H]; apply bool_decide_eq_true in H; eauto.
  - pose proof (Hothers (j, (x, y))) as Hj. cbn in Hj.
    intros ->. rewrite !orb_true_iff, negb_true_iff in Hj.
    destruct Hj as [[Hj|Hj]|Hj].
    + apply list_elem_of_In, elem_of_lookup_imap. eauto.
    + by apply bool_decide_eq_true in Hj.
    + by apply bool_decide_eq_true in Hj.
    + unfold incident in Hj. cbn in Hj. by rewrite bool_decide_eq_true_2 in Hj.
  - pose proof (Hothers (j, (x, y))) as Hj. cbn in Hj.
    intros ->. rewrite !orb_true_iff, negb_true_iff in Hj.
    destruct Hj as [[Hj|Hj]|Hj].
    + apply list_elem_of_In, elem_of_lookup_imap. eauto.
    + by apply bool_decide_eq_true in Hj.
    + by apply bool_decide_eq_true in Hj.
    + unfold incident in Hj. cbn in Hj.
      rewrite (bool_decide_eq_true_2 (v = v)), orb_true_r in Hj by done. done.
Qed.

(** Links that can be peeled off leaf by leaf hold no loop. *)
Lemma peel_no_loop removed order :
  peel links removed order = true →
  ¬ has_loop_among (λ j, j ∉ removed) links.
Proof.
  revert removed. induction order as [|[v i] order IH]; intros removed; cbn [peel].
  - rewrite forallb_forall. intros Hall (u & path & Hne & _ & Hallowed & Htrail).
    destruct path as [|j path]; [done|].
    apply Forall_cons in Hallowed as [Hj _]. apply Hj.
    destruct (trail_first _ _ _ _ Htrail) as [x Hx].
    assert (j < length links)%nat as Hlt.
    { destruct Hx as [H|H]; by apply lookup_lt_Some in H. }
    specialize (Hall j). rewrite in_seq in Hall.
    apply (proj1 (bool_decide_eq_true _)), Hall. lia.
  - rewrite andb_true_iff. intros [Hleaf Hrest] Hloop.
    apply is_leaf_link_spec in Hleaf as (a & b & Hi & Hab & Hv & Hrem & Hothers).
    apply (IH _ Hrest).
    destruct (leaf_not_on_loop (λ j, j ∉ removed) v i a b Hi Hab Hv Hothers Hloop)
      as (u & path & Hne & Hdup & Hall & Htrail).
    exists u, path. repeat split; try done.
    rewrite Forall_forall in Hall |- *. intros j Hj.
    destruct (Hall j Hj) as [H1 H2]. rewrite not_elem_of_cons. done.
Qed.

Lemma peel_loop_free order :
  peel links [] order = true → ¬ has_loop links.
Proof.
  intros Hpeel (u & path & Hne & Hdup & _ & Htrail).
  apply (peel_no_loop [] order Hpeel). exists u, path. repeat split; try done.
  apply Forall_forall. intros j _. apply not_elem_of_nil.
Qed.

End Graphs.

(** ** The two topologies *)

(** X17.  The topology registered as loopfree builds without error: six
    switches s1..s6, six hosts h1..h6 with addresses 10.0.0.1/24 ..
    10.0.0.6/24, and eleven links, one fewer than nodes.  Its links hold no
    loop and join any two nodes, so it is a tree; and every host hangs on
    exactly one link, the one to the switch of its number. *)
Theorem loopfree_topology_is_a_tree :
  ∃ t, Topology.build "loopfree" = Some t ∧
    Topology.switches t = Topology.switch_name <$> Topology.range_1_7 ∧
    Topology.hosts t
    = (λ i, (Topology.host_name i, Topology.host_ip i)) <$> Topology.range_1_7 ∧
    S (length (Topology.links t)) = length (nodes t) ∧
    ¬ has_loop (Topology.links t) ∧
    connected (Topology.links t) (nodes t) ∧
    Forall (λ i, attachments (Topology.links t) (Topology.host_name i)
                 = [(Topology.host_name i, Topology.switch_name i)])
      Topology.range_1_7.
Proof.
  eexists. split; [vm_compute; reflexivity|].
  split; [vm_compute; reflexivity|].
  split; [vm_compute; reflexivity|].
  split; [vm_compute; reflexivity|].
  split; [|split].
  - apply (peel_loop_free _ loopfree_leaves). vm_compute. reflexivity.
  - match goal with
    | |- connected ?l ?n =>
        apply (all_reached_connected l "s1" n (explore l 12 [("s1", [])]))
    end.
    vm_compute. reflexivity.
  - repeat constructor.
Qed.

(** X18.  The topology registered as projecttopo builds without error: the
    same six switches and six hosts, and fourteen links.  Its links join
    any two nodes and hold a loop (s1 - s2 - s5 - s4 - s1); every host
    hangs on exactly one link, the one to the switch of its number. *)
Theorem project_topology_has_loops :
  ∃ t, Topology.build "projecttopo" = Some t ∧
    Topology.switches t = Topology.switch_name <$> Topology.range_1_7 ∧
    Topology.hosts t
    = (λ i, (Topology.host_name i, Topology.host_ip i)) <$> Topology.range_1_7 ∧
    length (Topology.links t) = 14%nat ∧
    has_loop (Topology.links t) ∧
    connected (Topology.links t) (nodes t) ∧
    Forall (λ i, attachments (Topology.links t) (Topology.host_name i)
                 = [(Topology.host_name i, Topology.switch_name i)])
      Topology.range_1_7.
Proof.
  eexists. split; [vm_compute; reflexivity|].
  split; [vm_compute; reflexivity|].
  split; [vm_compute; reflexivity|].
  split; [vm_compute; reflexivity|].
  split; [|split].
  - exists "s1", [0; 6; 3; 2]%nat. split; [done|]. split; [|split].
    + apply (bool_decide_unpack _). vm_compute. exact I.
    + repeat constructor.
    + apply walk_trail. vm_compute. reflexivity.
  - match goal with
    | |- connected ?l ?n =>
        apply (all_reached_connected l "s1" n (explore l 12 [("s1", [])]))
    end.
    vm_compute. reflexivity.
  - repeat constructor.
Qed.

(** ** Loops of handlers *)

Section HandlerLoops.
Context {S L : Type}.
Implicit Types (s : S).

Lemma hbind_hret_l {A B} (a : A) (k : A → handler S L B) s :
  hbind (hret a) k s = k a s.
Proof. unfold hbind, hret. by destruct (k a s) as [[s2 out2] r]. Qed.

(** A loop whose iterations all return, emitting only effects that satisfy
    [P], returns and emits only such effects. *)
Lemma for_each_forall {A} (P : effect L → Prop) (xs : list A)
    (body : A → handler S L unit) :
  (∀ x s, result (body x s) = Returned () ∧ Forall P (effects (body x s))) →
  ∀ s, result (for_each xs body s) = Returned () ∧
       Forall P (effects (for_each xs body s)).
Proof.
  intros Hbody. induction xs as [|x xs IH]; intros s.
  - split; [done|]. constructor.
  - cbn [for_each]. unfold hbind.
    destruct (Hbody x s) as [Hr Hp].
    destruct (body x s) as [[s1 out1] o]. cbn in Hr, Hp. subst o.
    destruct (IH s1) as [Hr' Hp'].
    destruct (for_each xs body s1) as [[s2 out2] r]. cbn in *.
    split; [done|]. by apply Forall_app.
Qed.

(** Iterations that do nothing can be left out of a loop. *)
Lemma for_each_filter {A} (keep : A → Prop) `{∀ x, Decision (keep x)}
    (xs : list A) (body : A → handler S L unit) :
  (∀ x s, ¬ keep x → body x s = (s, [], Returned ())) →
  ∀ s, for_each xs body s = for_each (filter keep xs) body s.
Proof.
  intros Hskip. induction xs as [|x xs IH]; intros s; [done|].
  rewrite filter_cons. destruct (decide (keep x)) as [Hk|Hk].
  - cbn [for_each]. unfold hbind.
    destruct (body x s) as [[s1 out1] [[]|e]]; [|done]. by rewrite IH.
  - cbn [for_each]. unfold hbind. rewrite (Hskip x s Hk).
    rewrite <- IH. by destruct (for_each xs body s) as [[s2 out2] r].
Qed.

End HandlerLoops.

(** ** Keys of the port counters *)

(** X1.  Two different (switch, port) pairs never share a counter key, in
    either controller: the key [f"{dpid}-{port}"] determines the switch
    name and the port number, whatever the name contains. *)
Theorem port_keys_distinct (dpid1 dpid2 : string) (port1 port2 : N) :
  (dpid1, port1) ≠ (dpid2, port2) →
  SLB.port_key dpid1 port1 ≠ SLB.port_key dpid2 port2 ∧
  LBC.port_key dpid1 port1 ≠ LBC.port_key dpid2 port2.
Proof.
  intros Hne. split.
  - intros [-> ->]%slb_port_key_inj. by apply Hne.
  - intros [-> ->]%lbc_port_key_inj. by apply Hne.
Qed.

(** X1, at a switch whose name ends like another switch's key. *)
Lemma port_keys_distinct_witness :
  SLB.port_key "s1-2" 3 ≠ SLB.port_key "s1" 23 ∧
  LBC.port_key "s1-2" 3 ≠ LBC.port_key "s1" 23.
Proof. apply port_keys_distinct. discriminate. Defined.

(** ** A sample seen twice *)

Section DuplicateSample.

Lemma SFsub_diag (x : spec_float) :
  SF64sub x x = S754_nan ∨ SF64sub x x = S754_zero false.
Proof.
  destruct x as [s|s| |s m e]; cbn.
  - right. destruct s; reflexivity.
  - left. destruct s; reflexivity.
  - by left.
  - right. set (a := cond_Zopp s _).
    replace (a - a)%Z with 0%Z by (symmetry; apply Z.sub_diag). reflexivity.
Qed.

(** No clock reading is later than itself. *)
Lemma same_reading_not_later (t : float) : Py.gt (t - t) 0 = false.
Proof.
  unfold Py.gt. rewrite FloatAxioms.ltb_spec, FloatAxioms.sub_spec.
  change (Prim2SF 0) with (S754_zero false).
  by destruct (SFsub_diag (Prim2SF t)) as [-> | ->].
Qed.

End DuplicateSample.

(** X2.  simple_load_balancer ignores a duplicate sample: once a sample of
    a port has been processed, the same sample arriving with the same clock
    reading changes nothing and emits nothing, whatever the controller held
    before and whatever the reading is. *)
Theorem duplicate_sample_ignored
    (self : SLB.controller) (dpid : string) (port : N)
    (stat : ofp_port_stats) (current_time : float) :
  let self' := final_state (SLB._update_link_stats dpid port stat current_time self) in
  SLB._update_link_stats dpid port stat current_time self' = (self', [], Returned ()).
Proof.
  intros self'. subst self'.
  destruct (SLB.flow_counters self !! SLB.port_key dpid port) as [c|] eqn:Hk.
  2: { rewrite (slb_update_first self) by done. cbn [final_state fst].
       eapply slb_update_stale.
       - cbn [SLB.flow_counters]. apply lookup_insert_eq.
       - apply same_reading_not_later. }
  destruct (Py.gt (current_time - SLB.prev_time c) 0) eqn:Hdt.
  - rewrite (slb_update_fresh self _ _ _ _ c) by done. cbn [final_state fst].
    eapply slb_update_stale.
    + cbn [SLB.flow_counters]. apply lookup_insert_eq.
    + apply same_reading_not_later.
  - rewrite (slb_update_stale self _ _ _ _ c) by done. cbn [final_state fst].
    by apply (slb_update_stale _ _ _ _ _ c).
Qed.

(** ** Port-stats replies as a whole *)

Section StatsReplies.
Implicit Types (dpid : string) (stat : ofp_port_stats).

Lemma slb_update_only_logs self dpid port stat current_time :
  result (SLB._update_link_stats dpid port stat current_time self) = Returned () ∧
  Forall (λ e, is_log e = true)
    (effects (SLB._update_link_stats dpid port stat current_time self)).
Proof.
  split; [apply slb_update_returns|].
  destruct (SLB.flow_counters self !! SLB.port_key dpid port) as [c|] eqn:Hk.
  2: { rewrite slb_update_first by done. constructor. }
  destruct (Py.gt (current_time - SLB.prev_time c) 0) eqn:Hdt.
  2: { rewrite (slb_update_stale _ _ _ _ _ c) by done. constructor. }
  rewrite (slb_update_fresh _ _ _ _ _ c) by done. cbn [effects fst snd].
  apply Forall_app. split.
  - destruct (Py.gt _ 0x1.999999999999ap-5); repeat constructor.
  - destruct (Py.gt _ SLB.congestion_threshold);
      destruct (bool_decide _); repeat constructor.
Qed.

Lemma lbc_entry_only_logs self dpid stat :
  result (LBC.port_stats_entry dpid stat self) = Returned () ∧
  Forall (λ e, is_log e = true) (effects (LBC.port_stats_entry dpid stat self)).
Proof.
  destruct (decide (OFPP_MAX ≤ port_no stat)%N) as [Hp|Hp].
  { rewrite lbc_entry_reserved by done. split; [done|constructor]. }
  destruct (LBC.flow_counters self !! LBC.port_key dpid (port_no stat)) as [c|] eqn:Hk.
  2: { rewrite lbc_entry_first by (done || lia). split; [done|constructor]. }
  rewrite (lbc_entry_next _ _ _ c) by (done || lia). split; [done|].
  cbn [effects fst snd]. apply Forall_app. split.
  - destruct (_ || _); repeat constructor.
  - destruct (Py.gt _ 1000000); repeat constructor.
Qed.

Lemma only_logs_sent {L : Type} (out : list (effect L)) :
  Forall (λ e, is_log e = true) out →
  sent out = [] ∧ filter (λ e, is_call_later e = true) out = [].
Proof.
  induction 1 as [|e out He _ [IH1 IH2]]; [done|].
  destruct e; try discriminate He. split.
  - exact IH1.
  - rewrite filter_cons_False; [exact IH2|]. cbn. discriminate.
Qed.

Lemma slb_stats_mac_table self dpid stats :
  SLB.mac_table (final_state (SLB._handle_PortStatsReceived dpid stats self))
  = SLB.mac_table self.
Proof.
  unfold SLB._handle_PortStatsReceived.
  apply (for_each_invariant (λ s, SLB.mac_table s = SLB.mac_table self)); [|done].
  intros [stat t] s Hs. case_bool_decide; [done|].
  by rewrite slb_update_mac_table.
Qed.


Lemma slb_stats_only_logs self dpid stats :
  result (SLB._handle_PortStatsReceived dpid stats self) = Returned () ∧
  Forall (λ e, is_log e = true)
    (effects (SLB._handle_PortStatsReceived dpid stats self)).
Proof.
  unfold SLB._handle_PortStatsReceived. apply for_each_forall.
  intros [stat t] s. case_bool_decide.
  - split; [done|constructor].
  - apply slb_update_only_logs.
Qed.

Lemma lbc_stats_only_logs self dpid stats :
  result (LBC._handle_PortStatsReceived dpid stats self) = Returned () ∧
  Forall (λ e, is_log e = true)
    (effects (LBC._handle_PortStatsReceived dpid stats self)).
Proof.
  unfold LBC._handle_PortStatsReceived. apply for_each_forall.
  intros stat s. apply lbc_entry_only_logs.
Qed.

End StatsReplies.


(** X4.  Entries of a port-stats reply whose port number is OFPP_MAX or
    above are skipped: in both controllers a reply is handled exactly as
    the reply without those entries would be (same final controller, same
    log, same outcome), and a reply that holds only such entries, or none
    at all, changes nothing and logs nothing. *)
Theorem reserved_ports_are_skipped (dpid : string) :
  (∀ (self : SLB.controller) (stats : list (ofp_port_stats * float)),
     SLB._handle_PortStatsReceived dpid stats self
     = SLB._handle_PortStatsReceived dpid (slb_ingested stats) self) ∧
  (∀ (self : LBC.controller) (stats : list ofp_port_stats),
     LBC._handle_PortStatsReceived dpid stats self
     = LBC._handle_PortStatsReceived dpid (lbc_ingested stats) self) ∧
  (∀ (self : SLB.controller) (stats : list (ofp_port_stats * float)),
     slb_ingested stats = [] →
     SLB._handle_PortStatsReceived dpid stats self = (self, [], Returned ())) ∧
  (∀ (self : LBC.controller) (stats : list ofp_port_stats),
     lbc_ingested stats = [] →
     LBC._handle_PortStatsReceived dpid stats self = (self, [], Returned ())).
Proof.
  assert (∀ (self : SLB.controller) stats,
            SLB._handle_PortStatsReceived dpid stats self
            = SLB._handle_PortStatsReceived dpid (slb_ingested stats) self) as Hslb.
  { intros self stats. unfold SLB._handle_PortStatsReceived, slb_ingested.
    apply for_each_filter. intros [stat t] s Hp. cbn [fst] in Hp.
    by rewrite bool_decide_eq_true_2 by lia. }
  assert (∀ (self : LBC.controller) stats,
            LBC._handle_PortStatsReceived dpid stats self
            = LBC._handle_PortStatsReceived dpid (lbc_ingested stats) self) as Hlbc.
  { intros self stats. unfold LBC._handle_PortStatsReceived, lbc_ingested.
    apply for_each_filter. intros stat s Hp.
    apply lbc_entry_reserved. lia. }
  split; [exact Hslb|]. split; [exact Hlbc|]. split.
  - intros self stats Hnone. by rewrite Hslb, Hnone.
  - intros self stats Hnone. by rewrite Hlbc, Hnone.
Qed.

(** X4, at a reply that holds only the local port (0xfffe). *)
Lemma reserved_ports_are_skipped_witness :
  SLB._handle_PortStatsReceived "s1"
    [({| port_no := 0xfffe; rx_bytes := 10; tx_bytes := 20 |}, 1000%float)] slb_s1
  = (slb_s1, [], Returned ()).
Proof.
  apply (proj1 (proj2 (proj2 (reserved_ports_are_skipped "s1")))).
  vm_compute. reflexivity.
Defined.

(** ** Which ports have a counter entry *)

Section CounterKeys.
Implicit Types (dpid key : string) (stat : ofp_port_stats).

Lemma for_each_cons_final {S L A : Type} (x : A) (xs : list A)
    (body : A → handler S L unit) (s : S) :
  result (body x s) = Returned () →
  final_state (for_each (x :: xs) body s)
  = final_state (for_each xs body (final_state (body x s))).
Proof.
  intros Hr. cbn [for_each]. unfold hbind.
  destruct (body x s) as [[s1 out1] o]. cbn in Hr. subst o.
  cbn [final_state fst]. by destruct (for_each xs body s1) as [[s2 out2] r].
Qed.

Lemma slb_update_keys self dpid port stat current_time key :
  is_Some (SLB.flow_counters
             (final_state (SLB._update_link_stats dpid port stat current_time self))
           !! key)
  ↔ is_Some (SLB.flow_counters self !! key) ∨ key = SLB.port_key dpid port.
Proof.
  destruct (SLB.flow_counters self !! SLB.port_key dpid port) as [c|] eqn:Hk.
  2: { rewrite slb_update_first by done. cbn [final_state fst SLB.flow_counters].
       rewrite lookup_insert_is_Some. split.
       - intros [H|[_ H]]; eauto.
       - intros [H|H]; [|by left].
         destruct (decide (SLB.port_key dpid port = key)); eauto. }
  destruct (Py.gt (current_time - SLB.prev_time c) 0) eqn:Hdt.
  2: { rewrite (slb_update_stale _ _ _ _ _ c) by done. cbn [final_state fst].
       split; [by left|]. intros [H|H]; [done|]. subst key. rewrite Hk. eauto. }
  rewrite (slb_update_fresh _ _ _ _ _ c) by done.
  cbn [final_state fst SLB.flow_counters]. rewrite lookup_insert_is_Some. split.
  - intros [H|[_ H]]; eauto.
  - intros [H|H]; [|by left].
    destruct (decide (SLB.port_key dpid port = key)); eauto.
Qed.

Lemma slb_stats_keys self dpid stats key :
  is_Some (SLB.flow_counters
             (final_state (SLB._handle_PortStatsReceived dpid stats self)) !! key)
  ↔ is_Some (SLB.flow_counters self !! key)
    ∨ ∃ entry, entry ∈ stats ∧ (port_no entry.1 < OFPP_MAX)%N ∧
               key = SLB.port_key dpid (port_no entry.1).
Proof.
  unfold SLB._handle_PortStatsReceived.
  revert self. induction stats as [|[stat t] stats IH]; intros self.
  - cbn. split; [by left|]. intros [H|(e & He & _)]; [done|].
    by apply elem_of_nil in He.
  - rewrite for_each_cons_final.
    2: { case_bool_decide; [done|]. apply slb_update_returns. }
    rewrite IH. case_bool_decide as Hp.
    + cbn [final_state fst hret mret handler_ret]. split.
      * intros [H|(e & He & Hlt & Hkey)]; [by left|].
        right. exists e. split; [by right|done].
      * intros [H|(e & He & Hlt & Hkey)]; [by left|].
        apply elem_of_cons in He as [->|He]; [cbn in Hlt; lia|].
        right. eauto.
    + rewrite slb_update_keys. split.
      * intros [[H|H]|(e & He & Hlt & Hkey)]; [by left| |].
        -- right. exists (stat, t). split; [left|]. split; [cbn; lia|done].
        -- right. exists e. split; [by right|done].
      * intros [H|(e & He & Hlt & Hkey)]; [by left; left|].
        apply elem_of_cons in He as [->|He]; [left; by right|].
        right. eauto.
Qed.

Lemma slb_handle_keys (ev : SLB.event) self key :
  is_Some (SLB.flow_counters (final_state (SLB.handle ev self)) !! key)
  ↔ is_Some (SLB.flow_counters self !! key)
    ∨ ∃ dpid stats entry, ev = SLB.PortStatsReceived dpid stats ∧ entry ∈ stats ∧
        (port_no entry.1 < OFPP_MAX)%N ∧ key = SLB.port_key dpid (port_no entry.1).
Proof.
  destruct ev as [connections d|e|d stats|connections]; cbn [SLB.handle].
  - rewrite slb_connection_up_run. cbn [final_state fst SLB.flow_counters].
    split; [by left|]. intros [H|(?&?&?&[=]&_)]; done.
  - rewrite slb_packet_in_state. cbn [SLB.flow_counters].
    split; [by left|]. intros [H|(?&?&?&[=]&_)]; done.
  - rewrite slb_stats_keys. split.
    + intros [H|(e & He)]; [by left|]. right. exists d, stats, e. done.
    + intros [H|(d' & stats' & e & [= <- <-] & He)]; [by left|]. right. eauto.
  - rewrite slb_request_stats_state.
    split; [by left|]. intros [H|(?&?&?&[=]&_)]; done.
Qed.

Lemma lbc_entry_keys self dpid stat key :
  is_Some (LBC.flow_counters (final_state (LBC.port_stats_entry dpid stat self)) !! key)
  ↔ is_Some (LBC.flow_counters self !! key)
    ∨ ((port_no stat < OFPP_MAX)%N ∧ key = LBC.port_key dpid (port_no stat)).
Proof.
  destruct (decide (OFPP_MAX ≤ port_no stat)%N) as [Hp|Hp].
  { rewrite lbc_entry_reserved by done. cbn [final_state fst].
    split; [by left|]. intros [H|[H _]]; [done|lia]. }
  destruct (LBC.flow_counters self !! LBC.port_key dpid (port_no stat)) as [c|] eqn:Hk.
  - rewrite (lbc_entry_next _ _ _ c) by (done || lia).
    cbn [final_state fst LBC.flow_counters]. rewrite lookup_insert_is_Some. split.
    + intros [<-|[_ H]]; [|by left]. left. rewrite Hk. eauto.
    + intros [H|[_ ->]]; [|by left].
      destruct (decide (LBC.port_key dpid (port_no stat) = key)); eauto.
  - rewrite lbc_entry_first by (done || lia).
    cbn [final_state fst LBC.flow_counters]. rewrite lookup_insert_is_Some. split.
    + intros [<-|[_ H]]; [|by left]. right. split; [lia|done].
    + intros [H|[_ ->]]; [|by left].
      destruct (decide (LBC.port_key dpid (port_no stat) = key)); eauto.
Qed.

Lemma lbc_stats_keys self dpid stats key :
  is_Some (LBC.flow_counters
             (final_state (LBC._handle_PortStatsReceived dpid stats self)) !! key)
  ↔ is_Some (LBC.flow_counters self !! key)
    ∨ ∃ stat, stat ∈ stats ∧ (port_no stat < OFPP_MAX)%N ∧
              key = LBC.port_key dpid (port_no stat).
Proof.
  unfold LBC._handle_PortStatsReceived.
  revert self. induction stats as [|stat stats IH]; intros self.
  - cbn. split; [by left|]. intros [H|(e & He & _)]; [done|].
    by apply elem_of_nil in He.
  - rewrite for_each_cons_final by apply lbc_entry_only_logs.
    rewrite IH, lbc_entry_keys. split.
    + intros [[H|[Hlt Hkey]]|(e & He & Hlt & Hkey)]; [by left| |].
      * right. exists stat. split; [left|done].
      * right. exists e. split; [by right|done].
    + intros [H|(e & He & Hlt & Hkey)]; [by left; left|].
      apply elem_of_cons in He as [->|He]; [left; by right|].
      right. eauto.
Qed.

Lemma lbc_handle_keys (ev : LBC.event) self key :
  is_Some (LBC.flow_counters (final_state (LBC.handle ev self)) !! key)
  ↔ is_Some (LBC.flow_counters self !! key)
    ∨ ∃ dpid stats stat, ev = LBC.PortStatsReceived dpid stats ∧ stat ∈ stats ∧
        (port_no stat < OFPP_MAX)%N ∧ key = LBC.port_key dpid (port_no stat).
Proof.
  destruct ev as [connections d|e|d stats|connections]; cbn [LBC.handle].
  - rewrite lbc_connection_up_run. cbn [final_state fst LBC.flow_counters].
    split; [by left|]. intros [H|(?&?&?&[=]&_)]; done.
  - rewrite lbc_packet_in_state. cbn [LBC.flow_counters].
    split; [by left|]. intros [H|(?&?&?&[=]&_)]; done.
  - rewrite lbc_stats_keys. split.
    + intros [H|(e & He)]; [by left|]. right. exists d, stats, e. done.
    + intros [H|(d' & stats' & e & [= <- <-] & He)]; [by left|]. right. eauto.
  - rewrite lbc_request_stats_state.
    split; [by left|]. intros [H|(?&?&?&[=]&_)]; done.
Qed.

End CounterKeys.

(** X5.  Counter entries are created by ingested samples only and are
    never removed: after any sequence of events from the initial
    controller, a key has an entry in [flow_counters] exactly when some
    port-stats reply among the events held an entry with a port number
    below OFPP_MAX whose (switch, port) key it is.  This holds of both
    controllers. *)
Theorem counter_entries_are_the_polled_ports (key : string) :
  (∀ evs : list SLB.event,
     is_Some (SLB.flow_counters (SLB.run evs SLB.init) !! key)
     ↔ ∃ dpid stats entry,
         SLB.PortStatsReceived dpid stats ∈ evs ∧ entry ∈ stats ∧
         (port_no entry.1 < OFPP_MAX)%N ∧ key = SLB.port_key dpid (port_no entry.1)) ∧
  (∀ evs : list LBC.event,
     is_Some (LBC.flow_counters (LBC.run evs LBC.init) !! key)
     ↔ ∃ dpid stats stat,
         LBC.PortStatsReceived dpid stats ∈ evs ∧ stat ∈ stats ∧
         (port_no stat < OFPP_MAX)%N ∧ key = LBC.port_key dpid (port_no stat)).
Proof.
  split.
  - assert (∀ evs self,
      is_Some (SLB.flow_counters (SLB.run evs self) !! key)
      ↔ is_Some (SLB.flow_counters self !! key)
        ∨ ∃ dpid stats entry,
            SLB.PortStatsReceived dpid stats ∈ evs ∧ entry ∈ stats ∧
            (port_no entry.1 < OFPP_MAX)%N ∧
            key = SLB.port_key dpid (port_no entry.1)) as Hrun.
    { induction evs as [|ev evs IH]; intros self.
      - cbn. split; [by left|]. intros [H|(?&?&?&H&_)]; [done|].
        by apply elem_of_nil in H.
      - change (SLB.run (ev :: evs) self)
          with (SLB.run evs (final_state (SLB.handle ev self))).
        rewrite IH, slb_handle_keys. split.
        + intros [[H|(d & st & e & Heq & He)]|(d & st & e & Hev & He)]; [by left| |].
          * right. exists d, st, e. subst ev. split; [left|done].
          * right. exists d, st, e. split; [by right|done].
        + intros [H|(d & st & e & Hev & He)]; [by left; left|].
          apply elem_of_cons in Hev as [Heq|Hev].
          * left. right. subst ev. eauto 6.
          * right. eauto 6. }
    intros evs. rewrite Hrun. unfold SLB.init. cbn [SLB.flow_counters].
    rewrite lookup_empty. split; [|by right].
    intros [[? [=]]|H]; done.
  - assert (∀ evs self,
      is_Some (LBC.flow_counters (LBC.run evs self) !! key)
      ↔ is_Some (LBC.flow_counters self !! key)
        ∨ ∃ dpid stats stat,
            LBC.PortStatsReceived dpid stats ∈ evs ∧ stat ∈ stats ∧
            (port_no stat < OFPP_MAX)%N ∧
            key = LBC.port_key dpid (port_no stat)) as Hrun.
    { induction evs as [|ev evs IH]; intros self.
      - cbn. split; [by left|]. intros [H|(?&?&?&H&_)]; [done|].
        by apply elem_of_nil in H.
      - change (LBC.run (ev :: evs) self)
          with (LBC.run evs (final_state (LBC.handle ev self))).
        rewrite IH, lbc_handle_keys. split.
        + intros [[H|(d & st & e & Heq & He)]|(d & st & e & Hev & He)]; [by left| |].
          * right. exists d, st, e. subst ev. split; [left|done].
          * right. exists d, st, e. split; [by right|done].
        + intros [H|(d & st & e & Hev & He)]; [by left; left|].
          apply elem_of_cons in Hev as [Heq|Hev].
          * left. right. subst ev. eauto 6.
          * right. eauto 6. }
    intros evs. rewrite Hrun. unfold LBC.init. cbn [LBC.flow_counters].
    rewrite lookup_empty. split; [|by right].
    intros [[? [=]]|H]; done.
Qed.

(** ** Learning tables across events *)

Section LearningTables.
Implicit Types (dpid : string) (addr p : N) (e : packet_in_event).

Lemma slb_learned_lookup table e addr p :
  slb_learned table e !! addr = Some p →
  table !! addr = Some p ∨ (addr = src (ev_parsed e) ∧ p = ev_port e).
Proof.
  unfold slb_learned. destruct (table !! src (ev_parsed e)) eqn:Hs; [by left|].
  rewrite lookup_insert_Some. intros [[<- <-]|[_ H]]; eauto.
Qed.

Lemma slb_learned_twice table e :
  slb_learned (slb_learned table e) e = slb_learned table e.
Proof.
  unfold slb_learned at 2 3. destruct (table !! src (ev_parsed e)) eqn:Hs.
  - unfold slb_learned. by rewrite Hs.
  - unfold slb_learned. by rewrite lookup_insert_eq.
Qed.

(** Where a learned port comes from, one event at a time. *)
Lemma slb_handle_lookup (ev : SLB.event) self dpid addr p :
  slb_lookup (final_state (SLB.handle ev self)) dpid addr = Some p →
  slb_lookup self dpid addr = Some p ∨
  ∃ e, ev = SLB.PacketIn e ∧ parsed (ev_parsed e) = true ∧ ev_dpid e = dpid ∧
       src (ev_parsed e) = addr ∧ ev_port e = p.
Proof.
  unfold slb_lookup.
  destruct ev as [connections d|e|d stats|connections]; cbn [SLB.handle].
  - rewrite slb_connection_up_run. cbn [final_state fst SLB.mac_table].
    destruct (decide (d = dpid)) as [->|Hne].
    + rewrite lookup_insert_eq. cbn. by rewrite lookup_empty.
    + rewrite lookup_insert_ne by done. by left.
  - rewrite slb_packet_in_mac_table.
    destruct (parsed (ev_parsed e)) eqn:Hp; [|by left].
    destruct (SLB.mac_table self !! ev_dpid e) as [table|] eqn:Ht; [|by left].
    destruct (decide (ev_dpid e = dpid)) as [Hd|Hd].
    + subst dpid. rewrite lookup_insert_eq, Ht. cbn.
      intros [H|[-> ->]]%slb_learned_lookup; [by left|].
      right. exists e. done.
    + rewrite lookup_insert_ne by done. by left.
  - rewrite slb_stats_mac_table. by left.
  - rewrite slb_request_stats_state. by left.
Qed.

Lemma lbc_stats_mac_to_port self dpid stats :
  LBC.mac_to_port (final_state (LBC._handle_PortStatsReceived dpid stats self))
  = LBC.mac_to_port self.
Proof.
  unfold LBC._handle_PortStatsReceived.
  apply (for_each_invariant (λ s, LBC.mac_to_port s = LBC.mac_to_port self)); [|done].
  intros stat s Hs. by rewrite lbc_entry_mac_to_port.
Qed.

Lemma lbc_handle_lookup (ev : LBC.event) self dpid addr p :
  lbc_lookup (final_state (LBC.handle ev self)) dpid addr = Some p →
  lbc_lookup self dpid addr = Some p ∨
  ∃ e, ev = LBC.PacketIn e ∧ parsed (ev_parsed e) = true ∧ ev_dpid e = dpid ∧
       src (ev_parsed e) = addr ∧ ev_port e = p.
Proof.
  unfold lbc_lookup.
  destruct ev as [connections d|e|d stats|connections]; cbn [LBC.handle].
  - rewrite lbc_connection_up_run. cbn [final_state fst LBC.mac_to_port].
    destruct (decide (d = dpid)) as [->|Hne].
    + rewrite lookup_insert_eq. cbn. by rewrite lookup_empty.
    + rewrite lookup_insert_ne by done. by left.
  - rewrite lbc_packet_in_mac_to_port.
    destruct (parsed (ev_parsed e)) eqn:Hp; [|by left].
    destruct (LBC.mac_to_port self !! ev_dpid e) as [table|] eqn:Ht; [|by left].
    destruct (decide (ev_dpid e = dpid)) as [Hd|Hd].
    + subst dpid. rewrite lookup_insert_eq, Ht. cbn.
      rewrite lookup_insert_Some. intros [[<- <-]|[_ H]]; [|by left].
      right. exists e. done.
    + rewrite lookup_insert_ne by done. by left.
  - rewrite lbc_stats_mac_to_port. by left.
  - rewrite lbc_request_stats_state. by left.
Qed.

(** Where a learned port comes from, over a sequence of events. *)
Lemma slb_run_lookup (evs : list SLB.event) self dpid addr p :
  slb_lookup (SLB.run evs self) dpid addr = Some p →
  slb_lookup self dpid addr = Some p ∨
  ∃ e, SLB.PacketIn e ∈ evs ∧ parsed (ev_parsed e) = true ∧
       ev_dpid e = dpid ∧ src (ev_parsed e) = addr ∧ ev_port e = p.
Proof.
  revert self. induction evs as [|ev evs IH]; intros self; [by left|].
  change (SLB.run (ev :: evs) self)
    with (SLB.run evs (final_state (SLB.handle ev self))).
  intros [H|(e & He & Hrest)]%IH.
  - apply slb_handle_lookup in H as [H|(e & Heq & Hrest)]; [by left|].
    right. exists e. subst ev. split; [left|done].
  - right. exists e. split; [by right|done].
Qed.

Lemma lbc_run_lookup (evs : list LBC.event) self dpid addr p :
  lbc_lookup (LBC.run evs self) dpid addr = Some p →
  lbc_lookup self dpid addr = Some p ∨
  ∃ e, LBC.PacketIn e ∈ evs ∧ parsed (ev_parsed e) = true ∧
       ev_dpid e = dpid ∧ src (ev_parsed e) = addr ∧ ev_port e = p.
Proof.
  revert self. induction evs as [|ev evs IH]; intros self; [by left|].
  change (LBC.run (ev :: evs) self)
    with (LBC.run evs (final_state (LBC.handle ev self))).
  intros [H|(e & He & Hrest)]%IH.
  - apply lbc_handle_lookup in H as [H|(e & Heq & Hrest)]; [by left|].
    right. exists e. subst ev. split; [left|done].
  - right. exists e. split; [by right|done].
Qed.

End LearningTables.

(** X6.  Learning is scoped to the switch: the only events that change a
    switch's learning table are that switch's own connection-up and
    packet-in events.  Every other event (another switch's connection-up
    or packet-in, any port-stats reply, the statistics timer) leaves the
    table of the switch as it was, in both controllers. *)
Theorem learning_is_per_switch (dpid : string) :
  (∀ (ev : SLB.event) (self : SLB.controller),
     (∀ connections, ev ≠ SLB.ConnectionUp connections dpid) →
     (∀ e, ev = SLB.PacketIn e → ev_dpid e ≠ dpid) →
     SLB.mac_table (final_state (SLB.handle ev self)) !! dpid
     = SLB.mac_table self !! dpid) ∧
  (∀ (ev : LBC.event) (self : LBC.controller),
     (∀ connections, ev ≠ LBC.ConnectionUp connections dpid) →
     (∀ e, ev = LBC.PacketIn e → ev_dpid e ≠ dpid) →
     LBC.mac_to_port (final_state (LBC.handle ev self)) !! dpid
     = LBC.mac_to_port self !! dpid).
Proof.
  split.
  - intros ev self Hup Hin.
    destruct ev as [connections d|e|d stats|connections]; cbn [SLB.handle].
    + rewrite slb_connection_up_run. cbn [final_state fst SLB.mac_table].
      apply lookup_insert_ne. intros ->. by apply (Hup connections).
    + rewrite slb_packet_in_mac_table.
      destruct (parsed (ev_parsed e)); [|done].
      destruct (SLB.mac_table self !! ev_dpid e); [|done].
      apply lookup_insert_ne. by apply Hin.
    + by rewrite slb_stats_mac_table.
    + by rewrite slb_request_stats_state.
  - intros ev self Hup Hin.
    destruct ev as [connections d|e|d stats|connections]; cbn [LBC.handle].
    + rewrite lbc_connection_up_run. cbn [final_state fst LBC.mac_to_port].
      apply lookup_insert_ne. intros ->. by apply (Hup connections).
    + rewrite lbc_packet_in_mac_to_port.
      destruct (parsed (ev_parsed e)); [|done].
      destruct (LBC.mac_to_port self !! ev_dpid e); [|done].
      apply lookup_insert_ne. by apply Hin.
    + by rewrite lbc_stats_mac_to_port.
    + by rewrite lbc_request_stats_state.
Qed.

(** X6, at a packet-in of switch s1 seen from switch s2. *)
Lemma learning_is_per_switch_witness :
  SLB.mac_table (final_state (SLB.handle (SLB.PacketIn ip_aa_to_bb) slb_s1)) !! "s2"
  = SLB.mac_table slb_s1 !! "s2".
Proof.
  apply (proj1 (learning_is_per_switch "s2")).
  - intros connections. discriminate.
  - intros e [= <-]. discriminate.
Defined.

(** X8.  A learning table holds only what was observed: after any sequence
    of events from the initial controller, if an address is mapped to a
    port on a switch, then a parsed packet-in from that switch with that
    source address and that ingress port is among the events.  This holds
    of both controllers. *)
Theorem learned_ports_were_observed (dpid : string) (addr p : N) :
  (∀ evs : list SLB.event,
     slb_lookup (SLB.run evs SLB.init) dpid addr = Some p →
     ∃ e, SLB.PacketIn e ∈ evs ∧ parsed (ev_parsed e) = true ∧
          ev_dpid e = dpid ∧ src (ev_parsed e) = addr ∧ ev_port e = p) ∧
  (∀ evs : list LBC.event,
     lbc_lookup (LBC.run evs LBC.init) dpid addr = Some p →
     ∃ e, LBC.PacketIn e ∈ evs ∧ parsed (ev_parsed e) = true ∧
          ev_dpid e = dpid ∧ src (ev_parsed e) = addr ∧ ev_port e = p).
Proof.
  split.
  - intros evs [H|H]%slb_run_lookup; [|done]. discriminate H.
  - intros evs [H|H]%lbc_run_lookup; [|done]. discriminate H.
Qed.

(** X8, at the address aa learned on port 1 of switch s1. *)
Lemma learned_ports_were_observed_witness :
  ∃ e, SLB.PacketIn e ∈ [SLB.ConnectionUp ["s1"] "s1"; SLB.PacketIn ip_aa_to_bb] ∧
       parsed (ev_parsed e) = true ∧ ev_dpid e = "s1" ∧
       src (ev_parsed e) = 0xaa%N ∧ ev_port e = 1%N.
Proof.
  apply (proj1 (learned_ports_were_observed "s1" 0xaa 1)).
  vm_compute. reflexivity.
Defined.

(** ** Requests for statistics and their timers *)

Section StatsRequests.
Implicit Types (connections : list string).

Lemma for_each_send {S L : Type} connections (m : ofp_message) (s : S) :
  for_each connections (λ c, send (L := L) c m) s
  = (s, (λ c, Send c m) <$> connections, Returned ()).
Proof.
  induction connections as [|c connections IH]; [done|].
  cbn [for_each]. unfold hbind at 1. unfold send at 1, emit at 1.
  cbv beta iota. rewrite IH. reflexivity.
Qed.

Lemma slb_periodic_request self connections :
  SLB._request_stats connections None self
  = (self,
     ((λ c, Send c port_stats_request) <$> connections)
     ++ [CallLater SLB.monitoring_interval],
     Returned ()).
Proof.
  unfold SLB._request_stats, mbind, handler_bind, hbind.
  unfold SLB._request_stats_for_connection. cbv beta iota.
  by rewrite for_each_send.
Qed.

Lemma lbc_periodic_request self connections :
  LBC._request_stats connections None self
  = (self,
     ((λ c, Send c port_stats_request) <$> connections)
     ++ [CallLater LBC.monitoring_interval],
     Returned ()).
Proof.
  unfold LBC._request_stats, mbind, handler_bind, hbind.
  unfold LBC._request_stats_for_connection. cbv beta iota.
  by rewrite for_each_send.
Qed.

Lemma slb_packet_in_only_to self (e : packet_in_event) :
  Forall (only_to (ev_dpid e)) (effects (SLB._handle_PacketIn e self)).
Proof.
  destruct (parsed (ev_parsed e)) eqn:Hp.
  2: { rewrite slb_packet_in_unparsed by done. repeat constructor. }
  destruct (SLB.mac_table self !! ev_dpid e) as [table|] eqn:Ht.
  2: { rewrite slb_packet_in_no_table by done. constructor. }
  hrun. rewrite Hp. hrun. rewrite Ht. hrun.
  destruct (table !! src (ev_parsed e)) eqn:Hs; hrun;
    repeat case_bool_decide; hrun;
    rewrite ?Ht, ?lookup_insert_eq; hrun; try (repeat constructor).
  - destruct (table !! dst (ev_parsed e)); repeat constructor.
  - destruct (<[src (ev_parsed e):=ev_port e]> table !! dst (ev_parsed e));
      repeat constructor.
Qed.

Lemma lbc_packet_in_only_to self (e : packet_in_event) :
  Forall (only_to (ev_dpid e)) (effects (LBC._handle_PacketIn e self)).
Proof.
  destruct (parsed (ev_parsed e)) eqn:Hp.
  2: { rewrite lbc_packet_in_unparsed by done. repeat constructor. }
  destruct (LBC.mac_to_port self !! ev_dpid e) as [table|] eqn:Ht.
  2: { rewrite lbc_packet_in_no_table by done. constructor. }
  hrun. rewrite Hp. hrun. rewrite Ht. hrun. rewrite lookup_insert_eq. hrun.
  destruct (<[src (ev_parsed e):=ev_port e]> table !! dst (ev_parsed e)) as [out|];
    hrun; [case_bool_decide|]; repeat constructor.
Qed.

Lemma only_to_no_timer {L : Type} dpid (out : list (effect L)) :
  Forall (only_to dpid) out →
  filter (λ e, is_call_later e = true) out = [] ∧
  Forall (λ m, m.1 = dpid) (sent out).
Proof.
  induction 1 as [|e out He _ [IH1 IH2]]; [split; [done|constructor]|].
  destruct e as [c m|d|l r]; cbn in He.
  - split; [by rewrite filter_cons_False|]. by constructor.
  - destruct He.
  - split; [by rewrite filter_cons_False|]. exact IH2.
Qed.

End StatsRequests.



(** ** What a packet-in can send *)

(** X11.  A packet-in is answered on the switch it came from, briefly: in
    both controllers every message the packet-in handler sends goes to the
    switch of the event, there are at most two of them and at most one is
    a flow rule; and the handler never schedules a timer. *)
Theorem packet_in_answers_its_switch (e : packet_in_event) :
  (∀ self : SLB.controller,
     let out := effects (SLB._handle_PacketIn e self) in
     Forall (λ m, m.1 = ev_dpid e) (sent out) ∧
     (length (sent out) ≤ 2)%nat ∧
     (length (filter (λ m, is_flow_mod m = true) (sent out)) ≤ 1)%nat ∧
     filter (λ e', is_call_later e' = true) out = []) ∧
  (∀ self : LBC.controller,
     let out := effects (LBC._handle_PacketIn e self) in
     Forall (λ m, m.1 = ev_dpid e) (sent out) ∧
     (length (sent out) ≤ 2)%nat ∧
     (length (filter (λ m, is_flow_mod m = true) (sent out)) ≤ 1)%nat ∧
     filter (λ e', is_call_later e' = true) out = []).
Proof.
  split.
  - intros self out. subst out.
    destruct (only_to_no_timer _ _ (slb_packet_in_only_to self e)) as [Htimer Hto].
    split; [exact Hto|]. split; [|split; [|exact Htimer]].
    + destruct (parsed (ev_parsed e)) eqn:Hp.
      2: { rewrite slb_packet_in_unparsed by done. vm_compute; lia. }
      destruct (SLB.mac_table self !! ev_dpid e) as [table|] eqn:Ht.
      2: { rewrite slb_packet_in_no_table by done. vm_compute; lia. }
      rewrite (proj2 (slb_packet_in_sent self e table Hp Ht)).
      unfold forwarding_rule, flood_packet_out, unicast_packet_out.
      destruct (bool_decide (type (ev_parsed e) = LLDP_TYPE) || _); [vm_compute; lia|].
      destruct (bool_decide (type (ev_parsed e) = ARP_TYPE)); [vm_compute; lia|].
      destruct (slb_learned table e !! dst (ev_parsed e)); vm_compute; lia.
    + destruct (parsed (ev_parsed e)) eqn:Hp.
      2: { rewrite slb_packet_in_unparsed by done. vm_compute; lia. }
      destruct (SLB.mac_table self !! ev_dpid e) as [table|] eqn:Ht.
      2: { rewrite slb_packet_in_no_table by done. vm_compute; lia. }
      rewrite (proj2 (slb_packet_in_sent self e table Hp Ht)).
      unfold forwarding_rule, flood_packet_out, unicast_packet_out.
      destruct (bool_decide (type (ev_parsed e) = LLDP_TYPE) || _); [vm_compute; lia|].
      destruct (bool_decide (type (ev_parsed e) = ARP_TYPE)); [vm_compute; lia|].
      destruct (slb_learned table e !! dst (ev_parsed e)); vm_compute; lia.
  - intros self out. subst out.
    destruct (only_to_no_timer _ _ (lbc_packet_in_only_to self e)) as [Htimer Hto].
    split; [exact Hto|]. split; [|split; [|exact Htimer]].
    + destruct (parsed (ev_parsed e)) eqn:Hp.
      2: { rewrite lbc_packet_in_unparsed by done. vm_compute; lia. }
      destruct (LBC.mac_to_port self !! ev_dpid e) as [table|] eqn:Ht.
      2: { rewrite lbc_packet_in_no_table by done. vm_compute; lia. }
      rewrite (proj2 (lbc_packet_in_sent self e table Hp Ht)).
      unfold forwarding_rule.
      destruct (_ !! dst (ev_parsed e)); [|vm_compute; lia].
      destruct (bool_decide (_ ≠ OFPP_FLOOD)); vm_compute; lia.
    + destruct (parsed (ev_parsed e)) eqn:Hp.
      2: { rewrite lbc_packet_in_unparsed by done. vm_compute; lia. }
      destruct (LBC.mac_to_port self !! ev_dpid e) as [table|] eqn:Ht.
      2: { rewrite lbc_packet_in_no_table by done. vm_compute; lia. }
      rewrite (proj2 (lbc_packet_in_sent self e table Hp Ht)).
      unfold forwarding_rule.
      destruct (_ !! dst (ev_parsed e)); [|vm_compute; lia].
      destruct (bool_decide (_ ≠ OFPP_FLOOD)); vm_compute; lia.
Qed.

(** X13.  Handling the same packet-in a second time teaches nothing new:
    in both controllers the controller after two identical packet-ins in a
    row is the controller after the first. *)
Theorem packet_in_learns_once (e : packet_in_event) :
  (∀ self : SLB.controller,
     final_state (SLB._handle_PacketIn e (final_state (SLB._handle_PacketIn e self)))
     = final_state (SLB._handle_PacketIn e self)) ∧
  (∀ self : LBC.controller,
     final_state (LBC._handle_PacketIn e (final_state (LBC._handle_PacketIn e self)))
     = final_state (LBC._handle_PacketIn e self)).
Proof.
  split; intros self.
  - rewrite (slb_packet_in_state (final_state _)), (slb_packet_in_state self).
    cbn [SLB.mac_table SLB.flow_counters SLB.congested_links].
    destruct (parsed (ev_parsed e)); [|done].
    destruct (SLB.mac_table self !! ev_dpid e) as [table|] eqn:Ht.
    + by rewrite lookup_insert_eq, slb_learned_twice, insert_insert_eq.
    + by rewrite Ht.
  - rewrite (lbc_packet_in_state (final_state _)), (lbc_packet_in_state self).
    cbn [LBC.mac_to_port LBC.flow_counters LBC.switch_stats].
    destruct (parsed (ev_parsed e)); [|done].
    destruct (LBC.mac_to_port self !! ev_dpid e) as [table|] eqn:Ht.
    + by rewrite lookup_insert_eq, !insert_insert_eq.
    + by rewrite Ht.
Qed.

(** ** Reconnecting a switch *)

(** X14.  A connection-up forgets what the switch had learned and nothing
    else.  In simple_load_balancer the switch's table becomes empty, so a
    lookup of any address on it fails and the next parsed packet that is
    not LLDP or IPv6 and not addressed to its own source is flooded, while
    the tables of the other switches, the port counters and the congested
    set stay as they were.  In load_balancer_controller the switch's table
    becomes empty likewise and the other tables and the port counters stay
    as they were. *)
Theorem connection_up_resets_the_table (connections : list string) (dpid : string) :
  (∀ self : SLB.controller,
     let self' := final_state (SLB._handle_ConnectionUp connections dpid self) in
     (∀ addr, slb_lookup self' dpid addr = None) ∧
     (∀ dpid', dpid' ≠ dpid →
        SLB.mac_table self' !! dpid' = SLB.mac_table self !! dpid') ∧
     SLB.flow_counters self' = SLB.flow_counters self ∧
     SLB.congested_links self' = SLB.congested_links self ∧
     (∀ e, ev_dpid e = dpid → parsed (ev_parsed e) = true →
        type (ev_parsed e) ≠ LLDP_TYPE → type (ev_parsed e) ≠ IPV6_TYPE →
        dst (ev_parsed e) ≠ src (ev_parsed e) →
        sent (effects (SLB._handle_PacketIn e self')) = [(dpid, flood_packet_out e)])) ∧
  (∀ self : LBC.controller,
     let self' := final_state (LBC._handle_ConnectionUp connections dpid self) in
     (∀ addr, lbc_lookup self' dpid addr = None) ∧
     (∀ dpid', dpid' ≠ dpid →
        LBC.mac_to_port self' !! dpid' = LBC.mac_to_port self !! dpid') ∧
     LBC.flow_counters self' = LBC.flow_counters self).
Proof.
  split.
  - intros self self'. subst self'. rewrite slb_connection_up_run.
    cbn [final_state fst]. unfold slb_lookup.
    cbn [SLB.mac_table SLB.flow_counters SLB.congested_links].
    split; [|split; [|split; [done|split; [done|]]]].
    + intros addr. rewrite lookup_insert_eq. cbn. apply lookup_empty.
    + intros dpid' Hne. by rewrite lookup_insert_ne.
    + intros e <- Hp Hl Hi Hd.
      match goal with
      | |- sent (effects (SLB._handle_PacketIn e ?s)) = _ =>
          destruct (slb_packet_in_sent s e ∅ Hp) as [_ Hs];
            [cbn [SLB.mac_table]; apply lookup_insert_eq|]
      end.
      rewrite Hs, !bool_decide_eq_false_2 by done. cbn [orb]. clear Hs.
      assert (slb_learned ∅ e !! dst (ev_parsed e) = None) as ->.
      { unfold slb_learned. rewrite lookup_empty.
        rewrite lookup_insert_ne by done. apply lookup_empty. }
      by case_bool_decide.
  - intros self self'. subst self'. rewrite lbc_connection_up_run.
    cbn [final_state fst]. unfold lbc_lookup.
    cbn [LBC.mac_to_port LBC.flow_counters].
    split; [|split; [|done]].
    + intros addr. rewrite lookup_insert_eq. cbn. apply lookup_empty.
    + intros dpid' Hne. by rewrite lookup_insert_ne.
Qed.

(** X14, at switch s1 reconnecting after it had learned address aa. *)
Lemma connection_up_resets_the_table_witness :
  slb_lookup slb_s1_aa "s1" 0xaa = Some 1%N ∧
  sent (effects (SLB._handle_PacketIn ip_bb_to_aa
                   (final_state (SLB._handle_ConnectionUp ["s1"] "s1" slb_s1_aa))))
  = [("s1", flood_packet_out ip_bb_to_aa)].
Proof.
  split; [vm_compute; reflexivity|].
  apply (proj1 (connection_up_resets_the_table ["s1"] "s1") slb_s1_aa);
    [reflexivity|reflexivity|discriminate|discriminate|discriminate].
Defined.

(** ** Counters of one port *)

Section PortCounters.
Implicit Types (dpid : string) (port : N) (stat : ofp_port_stats).

Lemma for_each_invariant_in {S L A : Type} (P : S → Prop) (xs : list A)
    (body : A → handler S L unit) :
  (∀ x s, x ∈ xs → P s → P (final_state (body x s))) →
  ∀ s, P s → P (final_state (for_each xs body s)).
Proof.
  induction xs as [|x xs IH]; intros Hbody s Hs; [exact Hs|].
  cbn [for_each]. unfold hbind.
  pose proof (Hbody x s ltac:(left) Hs) as Hx.
  destruct (body x s) as [[s1 out1] [[]|e]]; cbn [final_state fst] in *.
  - assert (P (final_state (for_each xs body s1))) as Hrest.
    { apply IH; [|exact Hx]. intros y s' Hy. apply Hbody. by right. }
    destruct (for_each xs body s1) as [[s2 out2] r]. exact Hrest.
  - exact Hx.
Qed.

(** A sample of one port leaves the congestion status of every other port
    alone. *)
Lemma slb_update_other_congested self dpid port dpid' port' stat current_time :
  (dpid', port') ≠ (dpid, port) →
  SLB.port_key dpid port
    ∈ SLB.congested_links
        (final_state (SLB._update_link_stats dpid' port' stat current_time self))
  ↔ SLB.port_key dpid port ∈ SLB.congested_links self.
Proof.
  intros Hne.
  assert (SLB.port_key dpid port ≠ SLB.port_key dpid' port') as Hkey.
  { intros [-> ->]%slb_port_key_inj. by apply Hne. }
  destruct (SLB.flow_counters self !! SLB.port_key dpid' port') as [c|] eqn:Hk.
  2: { by rewrite (slb_update_first self) by done. }
  destruct (Py.gt (current_time - SLB.prev_time c) 0) eqn:Hdt.
  2: { by rewrite (slb_update_stale self _ _ _ _ c) by done. }
  rewrite (slb_update_fresh self _ _ _ _ c) by done.
  cbn [final_state fst SLB.congested_links].
  destruct (Py.gt _ SLB.congestion_threshold).
  - rewrite elem_of_union, elem_of_singleton. tauto.
  - rewrite elem_of_difference, elem_of_singleton. tauto.
Qed.

End PortCounters.

(** X7.  The counters and the congestion status of a port change only when
    a port-stats reply of its own switch holds an entry for it.  Any other
    event (a connection-up, a packet-in, the statistics timer, a reply of
    another switch, a reply of the same switch without an entry for this
    port) leaves the port's entry in [flow_counters] as it was, and in
    simple_load_balancer also its membership in [congested_links]. *)
Theorem counters_change_on_own_samples_only (dpid : string) (port : N) :
  (∀ (ev : SLB.event) (self : SLB.controller),
     (∀ stats entry, ev = SLB.PortStatsReceived dpid stats →
                     entry ∈ stats → port_no entry.1 ≠ port) →
     let key := SLB.port_key dpid port in
     let self' := final_state (SLB.handle ev self) in
     SLB.flow_counters self' !! key = SLB.flow_counters self !! key ∧
     (key ∈ SLB.congested_links self' ↔ key ∈ SLB.congested_links self)) ∧
  (∀ (ev : LBC.event) (self : LBC.controller),
     (∀ stats stat, ev = LBC.PortStatsReceived dpid stats →
                    stat ∈ stats → port_no stat ≠ port) →
     let key := LBC.port_key dpid port in
     LBC.flow_counters (final_state (LBC.handle ev self)) !! key
     = LBC.flow_counters self !! key).
Proof.
  split.
  - intros ev self Hev key self'. subst key self'.
    destruct ev as [connections d|e|d stats|connections]; cbn [SLB.handle].
    + by rewrite slb_connection_up_run.
    + by rewrite slb_packet_in_state.
    + unfold SLB._handle_PortStatsReceived.
      apply (for_each_invariant_in
               (λ s, SLB.flow_counters s !! SLB.port_key dpid port
                     = SLB.flow_counters self !! SLB.port_key dpid port ∧
                     (SLB.port_key dpid port ∈ SLB.congested_links s
                      ↔ SLB.port_key dpid port ∈ SLB.congested_links self)));
        [|done].
      intros [stat t] s Hin [Hc Hm]. case_bool_decide; [done|].
      assert ((d, port_no stat) ≠ (dpid, port)) as Hne.
      { intros [= -> Hp]. by apply (Hev stats (stat, t) eq_refl Hin). }
      by rewrite slb_update_other_pair, slb_update_other_congested.
    + by rewrite slb_request_stats_state.
  - intros ev self Hev key. subst key.
    destruct ev as [connections d|e|d stats|connections]; cbn [LBC.handle].
    + by rewrite lbc_connection_up_run.
    + by rewrite lbc_packet_in_state.
    + unfold LBC._handle_PortStatsReceived.
      apply (for_each_invariant_in
               (λ s, LBC.flow_counters s !! LBC.port_key dpid port
                     = LBC.flow_counters self !! LBC.port_key dpid port));
        [|done].
      intros stat s Hin Hc.
      assert ((d, port_no stat) ≠ (dpid, port)) as Hne.
      { intros [= -> Hp]. by apply (Hev stats stat eq_refl Hin). }
      by rewrite lbc_entry_other_pair.
    + by rewrite lbc_request_stats_state.
Qed.

(** X7, at port 23 of switch s1 while switch s1-2 reports its port 3. *)
Lemma counters_change_on_own_samples_only_witness :
  let ev := SLB.PortStatsReceived "s1-2" [(port3 10 20, 1000%float)] in
  SLB.flow_counters (final_state (SLB.handle ev slb_polled)) !! SLB.port_key "s1" 23
  = SLB.flow_counters slb_polled !! SLB.port_key "s1" 23 ∧
  (SLB.port_key "s1" 23 ∈ SLB.congested_links (final_state (SLB.handle ev slb_polled))
   ↔ SLB.port_key "s1" 23 ∈ SLB.congested_links slb_polled).
Proof.
  intros ev.
  apply (proj1 (counters_change_on_own_samples_only "s1" 23) ev slb_polled).
  intros stats entry Heq. discriminate Heq.
Defined.

(** ** The last two samples of a port *)

Section LBCWindow.
Implicit Types (dpid : string) (port : N) (stat : ofp_port_stats).

Lemma lbc_entry_shift self dpid stat :
  (port_no stat < OFPP_MAX)%N →
  LBC.flow_counters (final_state (LBC.port_stats_entry dpid stat self))
  !! LBC.port_key dpid (port_no stat)
  = lbc_shift (LBC.flow_counters self !! LBC.port_key dpid (port_no stat)) stat.
Proof.
  intros Hp.
  destruct (LBC.flow_counters self !! LBC.port_key dpid (port_no stat)) as [c|] eqn:Hk.
  - rewrite (lbc_entry_next _ _ _ c) by done.
    cbn [final_state fst LBC.flow_counters]. by rewrite lookup_insert_eq.
  - rewrite lbc_entry_first by done.
    cbn [final_state fst LBC.flow_counters]. by rewrite lookup_insert_eq.
Qed.

Lemma lbc_stats_window self d stats dpid port :
  (port < OFPP_MAX)%N →
  LBC.flow_counters (final_state (LBC._handle_PortStatsReceived d stats self))
  !! LBC.port_key dpid port
  = foldl lbc_shift (LBC.flow_counters self !! LBC.port_key dpid port)
      (if decide (d = dpid) then filter (λ stat, port_no stat = port) stats else []).
Proof.
  intros Hp. unfold LBC._handle_PortStatsReceived.
  revert self. induction stats as [|stat stats IH]; intros self.
  { by destruct (decide (d = dpid)). }
  rewrite for_each_cons_final by apply lbc_entry_only_logs.
  rewrite IH. destruct (decide (d = dpid)) as [->|Hd].
  - rewrite filter_cons. destruct (decide (port_no stat = port)) as [<-|Hn].
    + cbn [foldl]. by rewrite lbc_entry_shift.
    + rewrite lbc_entry_other_pair; [done|]. intros [= Heq]. by apply Hn.
  - rewrite lbc_entry_other_pair; [done|]. intros [= Heq _]. by apply Hd.
Qed.

Lemma lbc_run_window evs self dpid port :
  (port < OFPP_MAX)%N →
  LBC.flow_counters (LBC.run evs self) !! LBC.port_key dpid port
  = foldl lbc_shift (LBC.flow_counters self !! LBC.port_key dpid port)
      (lbc_samples dpid port evs).
Proof.
  intros Hp. revert self. induction evs as [|ev evs IH]; intros self; [done|].
  change (LBC.run (ev :: evs) self)
    with (LBC.run evs (final_state (LBC.handle ev self))).
  unfold lbc_samples. rewrite bind_cons, foldl_app. fold (lbc_samples dpid port evs).
  rewrite IH. f_equal.
  destruct ev as [connections d|e|d stats|connections]; cbn [LBC.handle foldl].
  - by rewrite lbc_connection_up_run.
  - by rewrite lbc_packet_in_state.
  - by apply lbc_stats_window.
  - by rewrite lbc_request_stats_state.
Qed.

Lemma lbc_shift_window (samples : list ofp_port_stats) :
  foldl lbc_shift None samples = lbc_window samples.
Proof.
  induction samples as [|stat samples IH] using rev_ind; [done|].
  rewrite foldl_app, IH. unfold lbc_window. rewrite reverse_snoc.
  by destruct (reverse samples) as [|b [|a rest]].
Qed.

End LBCWindow.

(** X15.  load_balancer_controller keeps the last two samples of every
    port.  After any sequence of events from the initial controller, the
    entry of a port (number below OFPP_MAX) in [flow_counters] holds the
    byte counts of the last sample received for it as current counters and
    those of the sample before it as previous counters; after a single
    sample both are that sample, and without a sample there is no entry.
    Connection-ups, packet-ins and samples of other ports do not disturb
    it. *)
Theorem lbc_counters_hold_last_two_samples
    (dpid : string) (port : N) (evs : list LBC.event) :
  (port < OFPP_MAX)%N →
  LBC.flow_counters (LBC.run evs LBC.init) !! LBC.port_key dpid port
  = lbc_window (lbc_samples dpid port evs).
Proof.
  intros Hp. rewrite lbc_run_window by done.
  cbn [LBC.init LBC.flow_counters]. rewrite lookup_empty.
  apply lbc_shift_window.
Qed.

(** X15, at port 3 of switch s1 polled three times, switch s2 once. *)
Lemma lbc_counters_hold_last_two_samples_witness :
  let evs := [LBC.ConnectionUp ["s1"] "s1";
              LBC.PortStatsReceived "s1" [port3 0 0];
              LBC.PortStatsReceived "s2" [port3 7 7];
              LBC.PortStatsReceived "s1" [port3 100 50; port3 300 70]] in
  LBC.flow_counters (LBC.run evs LBC.init) !! LBC.port_key "s1" 3
  = lbc_window (lbc_samples "s1" 3 evs) ∧
  lbc_window (lbc_samples "s1" 3 evs)
  = Some {| LBC.prev_rx := 100; LBC.prev_tx := 50;
            LBC.current_rx := 300; LBC.current_tx := 70 |}.
Proof.
  intros evs. split.
  - apply (lbc_counters_hold_last_two_samples "s1" 3 evs). reflexivity.
  - vm_compute. reflexivity.
Defined.

(** ** Where flow rules come from *)

Section FlowRules.
Implicit Types (dpid : string) (fm : ofp_flow_mod) (e : packet_in_event).

Lemma slb_trace_snoc (evs : list SLB.event) ev self :
  slb_trace (evs ++ [ev]) self
  = slb_trace evs self ++ effects (SLB.handle ev (SLB.run evs self)).
Proof.
  revert self. induction evs as [|ev' evs IH]; intros self.
  - cbn. by rewrite app_nil_r.
  - cbn [app slb_trace]. rewrite IH. by rewrite <- app_assoc.
Qed.

Lemma lbc_trace_snoc (evs : list LBC.event) ev self :
  lbc_trace (evs ++ [ev]) self
  = lbc_trace evs self ++ effects (LBC.handle ev (LBC.run evs self)).
Proof.
  revert self. induction evs as [|ev' evs IH]; intros self.
  - cbn. by rewrite app_nil_r.
  - cbn [app lbc_trace]. rewrite IH. by rewrite <- app_assoc.
Qed.

Lemma sent_app {L : Type} (out1 out2 : list (effect L)) :
  sent (out1 ++ out2) = sent out1 ++ sent out2.
Proof. apply omap_app. Qed.

(** The periodic request sends no flow rule. *)
Lemma requests_no_flow_mod {L : Type} (connections : list string) (d : Z) dpid fm :
  (dpid, flow_mod fm)
    ∉ sent (L := L) (((λ c, Send c port_stats_request) <$> connections) ++ [CallLater d]).
Proof.
  rewrite sent_app. cbn [sent omap app]. rewrite app_nil_r.
  induction connections as [|c connections IH]; [apply not_elem_of_nil|].
  cbn. rewrite not_elem_of_cons. split; [discriminate|exact IH].
Qed.

(** The flow rules of one simple_load_balancer handler. *)
Lemma slb_handle_flow_mod (ev : SLB.event) self dpid fm :
  (dpid, flow_mod fm) ∈ sent (effects (SLB.handle ev self)) →
  (flow_mod fm = table_miss_rule ∧ ∃ connections, ev = SLB.ConnectionUp connections dpid) ∨
  ∃ e out_port,
    ev = SLB.PacketIn e ∧ ev_dpid e = dpid ∧ parsed (ev_parsed e) = true ∧
    type (ev_parsed e) ≠ ARP_TYPE ∧ type (ev_parsed e) ≠ LLDP_TYPE ∧
    type (ev_parsed e) ≠ IPV6_TYPE ∧
    flow_mod fm = forwarding_rule e out_port ∧
    (slb_lookup self dpid (dst (ev_parsed e)) = Some out_port ∨
     (src (ev_parsed e) = dst (ev_parsed e) ∧ ev_port e = out_port)).
Proof.
  destruct ev as [connections d|e|d stats|connections]; cbn [SLB.handle].
  - rewrite slb_connection_up_run. cbn.
    rewrite !elem_of_cons, elem_of_nil. intros [[= -> Hm]|[[=]|[]]].
    left. split; [by rewrite Hm|]. by exists connections.
  - destruct (parsed (ev_parsed e)) eqn:Hp.
    2: { rewrite slb_packet_in_unparsed by done. cbn. by rewrite elem_of_nil. }
    destruct (SLB.mac_table self !! ev_dpid e) as [table|] eqn:Ht.
    2: { rewrite slb_packet_in_no_table by done. cbn. by rewrite elem_of_nil. }
    rewrite (proj2 (slb_packet_in_sent self e table Hp Ht)).
    destruct (bool_decide (type (ev_parsed e) = LLDP_TYPE)) eqn:Hl;
      [cbn [orb]; by rewrite elem_of_nil|].
    destruct (bool_decide (type (ev_parsed e) = IPV6_TYPE)) eqn:Hi;
      [cbn [orb]; by rewrite elem_of_nil|].
    cbn [orb].
    destruct (bool_decide (type (ev_parsed e) = ARP_TYPE)) eqn:Ha.
    { rewrite list_elem_of_singleton. intros [= _ Hm]. }
    apply bool_decide_eq_false in Hl, Hi, Ha.
    destruct (slb_learned table e !! dst (ev_parsed e)) as [out_port|] eqn:Hd.
    2: { rewrite list_elem_of_singleton. intros [= _ Hm]. }
    rewrite !elem_of_cons, elem_of_nil. intros [[= Hdp Hm]|[[= _ Hm]|[]]].
    subst dpid. right. exists e, out_port. repeat (split; [done|]).
    split; [unfold forwarding_rule; by rewrite Hm|].
    apply slb_learned_lookup in Hd as [Hd|[Hd1 Hd2]].
    + left. unfold slb_lookup. rewrite Ht. exact Hd.
    + right. done.
  - intros Hin.
    rewrite (proj1 (only_logs_sent _ (proj2 (slb_stats_only_logs self d stats)))) in Hin.
    by apply elem_of_nil in Hin.
  - rewrite slb_periodic_request. cbn [effects fst snd].
    intros Hin. by apply requests_no_flow_mod in Hin.
Qed.

(** The flow rules of one load_balancer_controller handler. *)
Lemma lbc_handle_flow_mod (ev : LBC.event) self dpid fm :
  (dpid, flow_mod fm) ∈ sent (effects (LBC.handle ev self)) →
  ∃ e out_port,
    ev = LBC.PacketIn e ∧ ev_dpid e = dpid ∧ parsed (ev_parsed e) = true ∧
    flow_mod fm = forwarding_rule e out_port ∧
    (out_port = OFPP_FLOOD ∨
     lbc_lookup self dpid (dst (ev_parsed e)) = Some out_port ∨
     (src (ev_parsed e) = dst (ev_parsed e) ∧ ev_port e = out_port)).
Proof.
  destruct ev as [connections d|e|d stats|connections]; cbn [LBC.handle].
  - rewrite lbc_connection_up_run. cbn.
    rewrite !elem_of_cons, elem_of_nil. by intros [[=]|[]].
  - destruct (parsed (ev_parsed e)) eqn:Hp.
    2: { rewrite lbc_packet_in_unparsed by done. cbn. by rewrite elem_of_nil. }
    destruct (LBC.mac_to_port self !! ev_dpid e) as [table|] eqn:Ht.
    2: { rewrite lbc_packet_in_no_table by done. cbn. by rewrite elem_of_nil. }
    rewrite (proj2 (lbc_packet_in_sent self e table Hp Ht)).
    destruct (<[src (ev_parsed e):=ev_port e]> table !! dst (ev_parsed e))
      as [out_port|] eqn:Hd.
    2: { rewrite list_elem_of_singleton. intros [= Hdp Hm]. subst dpid.
         exists e, OFPP_FLOOD. repeat (split; [done|]).
         split; [unfold forwarding_rule; by rewrite Hm|]. by left. }
    intros Hin.
    assert ((dpid, flow_mod fm) = (ev_dpid e, forwarding_rule e out_port)) as Heq.
    { apply elem_of_cons in Hin as [Hin|Hin]; [exact Hin|].
      destruct (bool_decide (out_port ≠ OFPP_FLOOD)).
      - apply list_elem_of_singleton in Hin. discriminate Hin.
      - by apply elem_of_nil in Hin. }
    injection Heq as Hdp Hm. subst dpid.
    exists e, out_port. repeat (split; [done|]).
    split; [unfold forwarding_rule; by rewrite Hm|]. right.
    apply lookup_insert_Some in Hd as [[Hd1 Hd2]|[_ Hd]].
    + right. done.
    + left. unfold lbc_lookup. rewrite Ht. exact Hd.
  - intros Hin.
    rewrite (proj1 (only_logs_sent _ (proj2 (lbc_stats_only_logs self d stats)))) in Hin.
    by apply elem_of_nil in Hin.
  - rewrite lbc_periodic_request. cbn [effects fst snd].
    intros Hin. by apply requests_no_flow_mod in Hin.
Qed.

End FlowRules.

(** X16.  Every flow rule a controller installs is accounted for by the
    events it received.  Over any sequence of events from the initial
    controller, a flow rule simple_load_balancer sends to a switch is
    either the table-miss rule of a connection-up of that switch, or the
    forwarding rule of a parsed packet-in of that switch (not ARP, LLDP or
    IPv6) whose output port is the ingress port of a parsed packet-in of
    the same switch, among the events, whose source is the packet's
    destination: it never installs a flood rule or a rule to a port where
    the destination was not seen.  A flow rule load_balancer_controller
    sends is the forwarding rule of a parsed packet-in of that switch
    whose output port is the flood port or such an observed port. *)
Theorem flow_rules_are_accounted_for (dpid : string) (fm : ofp_flow_mod) :
  (∀ evs : list SLB.event,
     (dpid, flow_mod fm) ∈ sent (slb_trace evs SLB.init) →
     (flow_mod fm = table_miss_rule ∧
      ∃ connections, SLB.ConnectionUp connections dpid ∈ evs) ∨
     ∃ e e', SLB.PacketIn e ∈ evs ∧ SLB.PacketIn e' ∈ evs ∧
       ev_dpid e = dpid ∧ parsed (ev_parsed e) = true ∧
       type (ev_parsed e) ≠ ARP_TYPE ∧ type (ev_parsed e) ≠ LLDP_TYPE ∧
       type (ev_parsed e) ≠ IPV6_TYPE ∧
       ev_dpid e' = dpid ∧ parsed (ev_parsed e') = true ∧
       src (ev_parsed e') = dst (ev_parsed e) ∧
       flow_mod fm = forwarding_rule e (ev_port e')) ∧
  (∀ evs : list LBC.event,
     (dpid, flow_mod fm) ∈ sent (lbc_trace evs LBC.init) →
     ∃ e, LBC.PacketIn e ∈ evs ∧
       ev_dpid e = dpid ∧ parsed (ev_parsed e) = true ∧
       (flow_mod fm = forwarding_rule e OFPP_FLOOD ∨
        ∃ e', LBC.PacketIn e' ∈ evs ∧
          ev_dpid e' = dpid ∧ parsed (ev_parsed e') = true ∧
          src (ev_parsed e') = dst (ev_parsed e) ∧
          flow_mod fm = forwarding_rule e (ev_port e'))).
Proof.
  split.
  - induction evs as [|ev evs IH] using rev_ind.
    { cbn. by rewrite elem_of_nil. }
    rewrite slb_trace_snoc, sent_app, elem_of_app. intros [Hin|Hin].
    + destruct (IH Hin) as [[Hm (connections & Hc)]|(e & e' & He & He' & Hrest)].
      * left. split; [done|]. exists connections. apply elem_of_app. by left.
      * right. exists e, e'. rewrite !elem_of_app. by eauto.
    + apply slb_handle_flow_mod in Hin
        as [[Hm (connections & ->)]
           |(e & out_port & -> & Hd & Hp & Ha & Hl & Hi & Hm & Hout)].
      * left. split; [done|]. exists connections. apply elem_of_app. right. by left.
      * right. destruct Hout as [Hout|[Hs Ho]].
        -- apply slb_run_lookup in Hout as [Hout|(e' & He' & Hp' & Hd' & Hs' & Ho')];
             [discriminate Hout|].
           exists e, e'. rewrite !elem_of_app, list_elem_of_singleton.
           subst out_port. repeat (split; [by eauto|]). done.
        -- exists e, e. rewrite !elem_of_app, list_elem_of_singleton.
           subst out_port. repeat (split; [by eauto|]). done.
  - induction evs as [|ev evs IH] using rev_ind.
    { cbn. by rewrite elem_of_nil. }
    rewrite lbc_trace_snoc, sent_app, elem_of_app. intros [Hin|Hin].
    + destruct (IH Hin) as (e & He & Hd & Hp & Hrule).
      exists e. rewrite elem_of_app. repeat (split; [by eauto|]).
      destruct Hrule as [Hm|(e' & He' & Hrest)]; [by left|].
      right. exists e'. rewrite elem_of_app. by eauto.
    + apply lbc_handle_flow_mod in Hin
        as (e & out_port & -> & Hd & Hp & Hm & Hout).
      exists e. rewrite elem_of_app, list_elem_of_singleton.
      repeat (split; [by eauto|]).
      destruct Hout as [->|[Hout|[Hs Ho]]]; [by left| |].
      * apply lbc_run_lookup in Hout as [Hout|(e' & He' & Hp' & Hd' & Hs' & Ho')];
          [discriminate Hout|].
        right. exists e'. rewrite elem_of_app. subst out_port.
        repeat (split; [by eauto|]). done.
      * right. exists e. rewrite elem_of_app, list_elem_of_singleton.
        subst out_port. repeat (split; [by eauto|]). done.
Qed.

(** X16, at the rule installed for a packet to bb after bb was seen on
    port 2 of switch s1. *)
Lemma flow_rules_are_accounted_for_witness :
  let evs := [SLB.ConnectionUp ["s1"] "s1"; SLB.PacketIn ip_bb_to_aa;
              SLB.PacketIn ip_aa_to_bb] in
  ∃ fm, forwarding_rule ip_aa_to_bb 2 = flow_mod fm ∧
    ((flow_mod fm = table_miss_rule ∧
      ∃ connections, SLB.ConnectionUp connections "s1" ∈ evs) ∨
     ∃ e e', SLB.PacketIn e ∈ evs ∧ SLB.PacketIn e' ∈ evs ∧
       ev_dpid e = "s1" ∧ parsed (ev_parsed e) = true ∧
       type (ev_parsed e) ≠ ARP_TYPE ∧ type (ev_parsed e) ≠ LLDP_TYPE ∧
       type (ev_parsed e) ≠ IPV6_TYPE ∧
       ev_dpid e' = "s1" ∧ parsed (ev_parsed e') = true ∧
       src (ev_parsed e') = dst (ev_parsed e) ∧
       flow_mod fm = forwarding_rule e (ev_port e')).
Proof.
  intros evs. eexists. split; [reflexivity|].
  apply (proj1 (flow_rules_are_accounted_for "s1" _) evs).
  vm_compute.
  repeat first [apply list_elem_of_here | apply list_elem_of_further].
Defined.

(** ** Forwarding and the statistics *)

Section Forwarding.

Lemma slb_packet_in_reads_mac_table (e : packet_in_event)
    (mac_table : gmap string (gmap N N))
    (counters1 counters2 : gmap string SLB.counters) (congested1 congested2 : gset string) :
  let self1 := {| SLB.mac_table := mac_table; SLB.flow_counters := counters1;
                  SLB.congested_links := congested1 |} in
  let self2 := {| SLB.mac_table := mac_table; SLB.flow_counters := counters2;
                  SLB.congested_links := congested2 |} in
  effects (SLB._handle_PacketIn e self1) = effects (SLB._handle_PacketIn e self2) ∧
  result (SLB._handle_PacketIn e self1) = result (SLB._handle_PacketIn e self2).
Proof.
  intros self1 self2. subst self1 self2.
  destruct (parsed (ev_parsed e)) eqn:Hp.
  2: { by rewrite !slb_packet_in_unparsed by done. }
  destruct (mac_table !! ev_dpid e) as [table|] eqn:Ht.
  2: { by rewrite !slb_packet_in_no_table by done. }
  hrun. rewrite Hp. hrun. rewrite Ht. hrun.
  destruct (table !! src (ev_parsed e)) eqn:Hs; hrun;
    repeat case_bool_decide; hrun;
    rewrite ?Ht, ?lookup_insert_eq; hrun; try (split; reflexivity).
  - destruct (table !! dst (ev_parsed e)); split; reflexivity.
  - destruct (<[src (ev_parsed e):=ev_port e]> table !! dst (ev_parsed e));
      split; reflexivity.
Qed.

Lemma lbc_packet_in_reads_mac_to_port (e : packet_in_event)
    (mac_to_port : gmap string (gmap N N))
    (counters1 counters2 : gmap string LBC.counters)
    (stats1 stats2 : gmap string (gmap string Z)) :
  let self1 := {| LBC.switch_stats := stats1; LBC.flow_counters := counters1;
                  LBC.mac_to_port := mac_to_port |} in
  let self2 := {| LBC.switch_stats := stats2; LBC.flow_counters := counters2;
                  LBC.mac_to_port := mac_to_port |} in
  effects (LBC._handle_PacketIn e self1) = effects (LBC._handle_PacketIn e self2) ∧
  result (LBC._handle_PacketIn e self1) = result (LBC._handle_PacketIn e self2).
Proof.
  intros self1 self2. subst self1 self2.
  destruct (parsed (ev_parsed e)) eqn:Hp.
  2: { by rewrite !lbc_packet_in_unparsed by done. }
  destruct (mac_to_port !! ev_dpid e) as [table|] eqn:Ht.
  2: { by rewrite !lbc_packet_in_no_table by done. }
  hrun. rewrite Hp. hrun. rewrite Ht. hrun. rewrite lookup_insert_eq. hrun.
  destruct (<[src (ev_parsed e):=ev_port e]> table !! dst (ev_parsed e)) as [out|];
    hrun; [case_bool_decide|]; split; reflexivity.
Qed.

End Forwarding.

(** X12.  Forwarding never looks at the statistics.  In both controllers
    what the packet-in handler does (the messages it sends, the records it
    logs, whether it raises, and the learning table it leaves) is the same
    in any two controller states that hold the same learning tables,
    whatever their port counters, congested links or switch statistics
    are: a congested port is forwarded to exactly as an idle one. *)
Theorem forwarding_ignores_statistics (e : packet_in_event) :
  (∀ self1 self2 : SLB.controller,
     SLB.mac_table self1 = SLB.mac_table self2 →
     effects (SLB._handle_PacketIn e self1) = effects (SLB._handle_PacketIn e self2) ∧
     result (SLB._handle_PacketIn e self1) = result (SLB._handle_PacketIn e self2) ∧
     SLB.mac_table (final_state (SLB._handle_PacketIn e self1))
     = SLB.mac_table (final_state (SLB._handle_PacketIn e self2))) ∧
  (∀ self1 self2 : LBC.controller,
     LBC.mac_to_port self1 = LBC.mac_to_port self2 →
     effects (LBC._handle_PacketIn e self1) = effects (LBC._handle_PacketIn e self2) ∧
     result (LBC._handle_PacketIn e self1) = result (LBC._handle_PacketIn e self2) ∧
     LBC.mac_to_port (final_state (LBC._handle_PacketIn e self1))
     = LBC.mac_to_port (final_state (LBC._handle_PacketIn e self2))).
Proof.
  split.
  - intros [m1 f1 c1] [m2 f2 c2] Heq. cbn [SLB.mac_table] in Heq. subst m2.
    destruct (slb_packet_in_reads_mac_table e m1 f1 f2 c1 c2) as [He Hr].
    split; [exact He|]. split; [exact Hr|].
    by rewrite !slb_packet_in_mac_table.
  - intros [s1 f1 m1] [s2 f2 m2] Heq. cbn [LBC.mac_to_port] in Heq. subst m2.
    destruct (lbc_packet_in_reads_mac_to_port e m1 f1 f2 s1 s2) as [He Hr].
    split; [exact He|]. split; [exact Hr|].
    by rewrite !lbc_packet_in_mac_to_port.
Qed.

(** X12, at switch s1 with port 3 congested and with no port polled. *)
Lemma forwarding_ignores_statistics_witness :
  let busy :=
    SLB.run [SLB.PortStatsReceived "s1" ((port3 0 0, 1000%float) :: busy_samples)]
      slb_s1_aa in
  SLB.port_key "s1" 3 ∈ SLB.congested_links busy ∧
  effects (SLB._handle_PacketIn ip_bb_to_aa busy)
  = effects (SLB._handle_PacketIn ip_bb_to_aa slb_s1_aa).
Proof.
  intros busy. split.
  - apply (bool_decide_unpack _). vm_compute. exact I.
  - apply (proj1 (forwarding_ignores_statistics ip_bb_to_aa) busy slb_s1_aa).
    vm_compute. reflexivity.
Defined.
